(** * Distributed GraphSAGE node classification: a shallow embedding

    Source: [examples/distributed/graphsage/node_classification.py].

    The script is orchestration over DGL and PyTorch.  What the script itself
    computes (loops, slices, comparisons, counters, the order of the calls
    it makes) is written out below; what the libraries compute (the
    convolution operator, the optimiser, the clock, the partition book)
    enters as section variables, or as a small definition whose comment says
    which library behaviour it stands for.

    Numbers: tensor entries are rationals, so a float is one of [NaN],
    [PosInf] or a finite rational; rounding of float32/float64 arithmetic is
    not modelled except where the script converts a float product to an
    integer ([int(args.num_epochs * 0.8)]), which is modelled bit-exactly. *)

From Stdlib Require Import QArith Qround Qreduction Ascii.
From stdpp Require Import base list gmap strings.

(** ** Python exceptions and the error monad *)

Inductive exn :=
  | IndexError
  | RuntimeError
  | ValueError
  | ZeroDivisionError
  | OverflowError.

Inductive pyres (A : Type) :=
  | Ok (a : A)
  | Raise (e : exn).
Arguments Ok {A} a.
Arguments Raise {A} e.

#[global] Instance pyres_ret : MRet pyres := fun _ a => Ok a.
#[global] Instance pyres_bind : MBind pyres := fun _ _ f m =>
  match m with
  | Ok a => f a
  | Raise e => Raise e
  end.
#[global] Instance pyres_fmap : FMap pyres := fun _ _ f m =>
  match m with
  | Ok a => Ok (f a)
  | Raise e => Raise e
  end.

(** ** Floats *)

Inductive float :=
  | NaN
  | PosInf
  | Fin (q : Q).

(** [count / n] for a non-negative float [count] holding an integer and a
    Python int [n]: a tensor divided by zero does not raise, it gives [nan]
    for 0/0 and [inf] for a positive numerator. *)
Definition fdiv (count n : nat) : float :=
  match n with
  | O => match count with O => NaN | S _ => PosInf end
  | S _ => Fin (Qred (Z.of_nat count # Pos.of_nat n))
  end.

(** ** Accuracy ([compute_acc]) *)

Section ComputeAcc.
(** [Tensor.long()] truncates a finite float towards zero.  On [nan] and
    [inf] the conversion is platform dependent; the section variable is
    whatever the platform gives. *)
Variable long_nonfinite : float → Z.

Definition long (x : float) : Z :=
  match x with
  | Fin q => Z.quot (Qnum q) (Zpos (Qden q))
  | _ => long_nonfinite x
  end.

(** [th.argmax(row)]: the index of the first maximal entry. *)
Fixpoint argmax_from (best : Q) (besti i : nat) (r : list Q) : nat :=
  match r with
  | [] => besti
  | v :: r' =>
      match (best ?= v)%Q with
      | Lt => argmax_from v i (S i) r'
      | _ => argmax_from best besti (S i) r'
      end
  end.

(** Reducing over a dimension of size zero raises. *)
Definition argmax (r : list Q) : pyres nat :=
  match r with
  | [] => Raise IndexError
  | v :: r' => Ok (argmax_from v 0 1 r')
  end.

(** [th.argmax(pred, dim=1)] *)
Definition argmax_dim1 (pred : list (list Q)) : pyres (list nat) :=
  mapM argmax pred.

(** [a == b] on one-dimensional tensors: elementwise, a tensor of length
    one is broadcast against the other, any other pair of different
    lengths raises. *)
Definition tensor_eq (a b : list Z) : pyres (list bool) :=
  if decide (length a = length b) then Ok (zip_with Z.eqb a b)
  else match a, b with
       | _, [y] => Ok (map (λ x, Z.eqb x y) a)
       | [x], _ => Ok (map (λ y, Z.eqb x y) b)
       | _, _ => Raise RuntimeError
       end.

(** [t.float().sum()] of a boolean tensor: the number of [True]s. *)
Definition count_true (bs : list bool) : nat :=
  length (filter (λ b, b = true) bs).

Definition compute_acc (pred : list (list Q)) (labels : list float)
  : pyres float :=
  let labels := map long labels in
  am ← argmax_dim1 pred;
  hits ← tensor_eq (map Z.of_nat am) labels;
  Ok (fdiv (count_true hits) (length pred)).

(** What the specification means by the argmax column of a row. *)
Definition is_argmax (r : list Q) (i : nat) : Prop :=
  ∃ v, r !! i = Some v
       ∧ (∀ j w, r !! j = Some w → (w <= v)%Q)
       ∧ (∀ j w, j < i → r !! j = Some w → (w < v)%Q).

(** Rows whose argmax column is the label, as the specification counts
    them. *)
Definition matching_rows (am : list nat) (labels : list float) : nat :=
  count_true (zip_with (λ i l, Z.eqb (Z.of_nat i) (long l)) am labels).
End ComputeAcc.

(** ** Python helpers *)

(** [range(a, b)] *)
Definition py_range (a b : Z) : list Z :=
  map (λ k, a + Z.of_nat k)%Z (seq 0 (Z.to_nat (b - a))).

(** [l[start:]] for a list: a negative start counts from the end and is
    clamped at the front, a start past the end gives the empty list. *)
Definition py_slice_from {A} (start : Z) (l : list A) : list A :=
  let len := Z.of_nat (length l) in
  let s := if (start <? 0)%Z then Z.max (start + len) 0 else Z.min start len in
  drop (Z.to_nat s) l.

(** Consecutive batches of [bs] elements, the last one possibly shorter. *)
Fixpoint chunks_fuel {A} (fuel bs : nat) (l : list A) : list (list A) :=
  match fuel with
  | O => []
  | S fuel' =>
      match l with
      | [] => []
      | _ => take bs l :: chunks_fuel fuel' bs (drop bs l)
      end
  end.

Definition chunks {A} (bs : nat) (l : list A) : list (list A) :=
  chunks_fuel (length l) bs l.

(** ** The model ([DistSAGE]) *)

(** [dglnn.SAGEConv(in_feats, out_feats, aggregator_type)] as constructed;
    its weights are identified by the position of the layer in the model. *)
Record SAGEConv := mkSAGEConv {
  in_feats : nat;
  out_feats : nat;
  aggregator_type : string
}.

(** A message-flow block: destination nodes, source nodes (the destination
    nodes come first), and for every destination node the positions in
    [b_src] of its in-neighbours. *)
Record block := mkBlock {
  b_dst : list nat;
  b_src : list nat;
  b_edges : list (list nat)
}.

Definition number_of_dst_nodes (b : block) : nat := length (b_dst b).
Definition number_of_src_nodes (b : block) : nat := length (b_src b).

Record DistSAGE := mkDistSAGE {
  n_layers : Z;
  n_hidden : nat;
  n_classes : nat;
  layers : list SAGEConv
}.

(** [DistSAGE.__init__]: one append, a loop of appends over
    [range(1, n_layers - 1)], one more append. *)
Definition DistSAGE_init (in_feats n_hidden n_classes : nat) (n_layers : Z)
  : DistSAGE :=
  let layers := [] in
  let layers := layers ++ [mkSAGEConv in_feats n_hidden "mean"] in
  let layers :=
    foldl (λ ls _, ls ++ [mkSAGEConv n_hidden n_hidden "mean"])
          layers (py_range 1 (n_layers - 1)) in
  let layers := layers ++ [mkSAGEConv n_hidden n_classes "mean"] in
  {| n_layers := n_layers; n_hidden := n_hidden; n_classes := n_classes;
     layers := layers |}.

(** *** Training forward pass *)

Section Forward.
Context {T : Type}.
(** [layer(block, h)] for the layer at a given position. *)
Variable layer_call : nat → SAGEConv → block → T → pyres T.
Variable activation : T → T.
Variable dropout : T → T.

(** The body of [for i, (layer, block) in enumerate(zip(layers, blocks))],
    started at index [i]; [n] is [len(self.layers)]. *)
Fixpoint forward_loop (n i : nat) (lbs : list (SAGEConv * block)) (h : T)
  : pyres T :=
  match lbs with
  | [] => Ok h
  | (layer, blk) :: rest =>
      h ← layer_call i layer blk h;
      let h :=
        if decide (Z.of_nat i ≠ Z.of_nat n - 1)%Z
        then dropout (activation h) else h in
      forward_loop n (S i) rest h
  end.

Definition forward (m : DistSAGE) (blocks : list block) (x : T) : pyres T :=
  forward_loop (length (layers m)) 0 (zip (layers m) blocks) x.
End Forward.

(** ** The world the script runs in *)

(** A tensor with one row per node: its declared number of columns and its
    rows. *)
Record dtensor := mkDT {
  dt_cols : nat;
  dt_rows : list (list Q)
}.

Definition dt_shape (t : dtensor) : nat * nat := (length (dt_rows t), dt_cols t).

Definition zeros (rows cols : nat) : dtensor :=
  mkDT cols (replicate rows (replicate cols 0%Q)).

(** Library calls the script makes, in the order it makes them. *)
Inductive event :=
  | ENodeSplit (force_even : bool)
  | EDistTensor (shape : nat * nat) (name : string) (persistent : bool)
  | ESampler (fanouts : list Z)
  | ELoader (nodes : list nat) (batch_size : Z) (shuffle drop_last : bool)
  | EBatch (output_nodes : list nat)
  | EBarrier
  | EModelEval
  | EModelTrain
  | ENoGradEnter
  | ENoGradExit.

Record world := mkWorld {
  w_store : gmap string dtensor;  (* distributed tensors, by name *)
  w_training : bool;              (* [model.training] *)
  w_grad : bool;                  (* [th.is_grad_enabled()] *)
  w_log : list event
}.

(** Stateful, fallible code. *)
Definition M (A : Type) : Type := world → pyres (A * world).

#[global] Instance M_ret : MRet M := fun _ a w => Ok (a, w).
#[global] Instance M_bind : MBind M := fun _ _ f m w =>
  match m w with
  | Ok (a, w') => f a w'
  | Raise e => Raise e
  end.

Definition lift {A} (r : pyres A) : M A := fun w =>
  match r with
  | Ok a => Ok (a, w)
  | Raise e => Raise e
  end.

Definition emit (e : event) : M unit := fun w =>
  Ok (tt, mkWorld (w_store w) (w_training w) (w_grad w) (w_log w ++ [e])).

Definition get_world : M world := fun w => Ok (w, w).

Definition set_store (s : gmap string dtensor) : M unit := fun w =>
  Ok (tt, mkWorld s (w_training w) (w_grad w) (w_log w)).

Definition set_training (b : bool) : M unit := fun w =>
  Ok (tt, mkWorld (w_store w) b (w_grad w) (w_log w)).

Definition set_grad (b : bool) : M unit := fun w =>
  Ok (tt, mkWorld (w_store w) (w_training w) b (w_log w)).

(** [for a in l: body(a)] *)
Fixpoint for_each {A} (l : list A) (body : A → M unit) : M unit :=
  match l with
  | [] => mret tt
  | a :: l' => body a ;; for_each l' body
  end.

(** The graph handle: what the script reads from it. *)
Record graph := mkGraph {
  num_nodes : nat;
  in_nbrs : nat → list nat;
  features : dtensor;     (* [g.ndata["features"]] *)
  labels : list float     (* [g.ndata["labels"]] *)
}.

(** A tensor the script holds: one it was given, or a distributed tensor it
    refers to by name.  Two references with one name are one tensor. *)
Inductive tref :=
  | Given (t : dtensor)
  | Named (name : string).

Definition deref (x : tref) : M dtensor := fun w =>
  match x with
  | Given t => Ok (t, w)
  | Named name =>
      match w_store w !! name with
      | Some t => Ok (t, w)
      | None => Raise RuntimeError
      end
  end.

(** [t[ids]] *)
Definition index_rows (t : dtensor) (ids : list nat) : pyres (list (list Q)) :=
  mapM (λ i, match dt_rows t !! i with
             | Some r => Ok r
             | None => Raise IndexError
             end) ids.

(** [t[ids] = h]: the shapes must agree and the indices be in range. *)
Fixpoint scatter_rows (rows : list (list Q)) (ids : list nat) (h : list (list Q))
  : pyres (list (list Q)) :=
  match ids, h with
  | [], [] => Ok rows
  | i :: ids', r :: h' =>
      if decide (i < length rows)
      then scatter_rows (<[i := r]> rows) ids' h'
      else Raise IndexError
  | _, _ => Raise RuntimeError
  end.

Definition assign_rows (t : dtensor) (ids : list nat) (h : list (list Q))
  : pyres dtensor :=
  if decide (Forall (λ r, length r = dt_cols t) h)
  then rows ← scatter_rows (dt_rows t) ids h; Ok (mkDT (dt_cols t) rows)
  else Raise RuntimeError.

(** [x[ids]] *)
Definition read (x : tref) (ids : list nat) : M (list (list Q)) :=
  t ← deref x; lift (index_rows t ids).

(** [y[ids] = h] on a distributed tensor *)
Definition write (y : string) (ids : list nat) (h : list (list Q)) : M unit :=
  t ← deref (Named y);
  t' ← lift (assign_rows t ids h);
  w ← get_world;
  set_store (<[y := t']> (w_store w)).

(** [dgl.distributed.DistTensor(shape, th.float32, name, persistent=True)]:
    a tensor of that name is created zero-filled, or the existing one is
    attached to when its shape is the requested one. *)
Definition DistTensor (shape : nat * nat) (name : string) : M string :=
  emit (EDistTensor shape name true) ;;
  w ← get_world;
  match w_store w !! name with
  | None => set_store (<[name := zeros shape.1 shape.2]> (w_store w)) ;; mret name
  | Some t => if decide (dt_shape t = shape) then mret name
              else lift (Raise RuntimeError)
  end.

(** ** Full-graph layer-wise inference ([DistSAGE.inference]) *)

(** Position of the first occurrence of [x] in [l]. *)
Fixpoint position (x : nat) (l : list nat) : nat :=
  match l with
  | [] => O
  | y :: l' => if decide (x = y) then O else S (position x l')
  end.

(** [NeighborSampler([-1])] on a batch of seeds: every in-neighbour of every
    seed is kept; the block's source nodes are the seeds followed by the
    neighbours that are not seeds, each once. *)
Definition sample_block (in_nbrs : nat → list nat) (seeds : list nat) : block :=
  let src :=
    foldl (λ acc u, if decide (u ∈ acc) then acc else acc ++ [u])
          seeds (concat (map in_nbrs seeds)) in
  mkBlock seeds src (map (λ v, map (λ u, position u src) (in_nbrs v)) seeds).

Section Inference.
(** [layer(block, (h, h_dst))] for the layer at a given position. *)
Variable conv :
  nat → SAGEConv → block → list (list Q) * list (list Q) → pyres (list (list Q)).
Variable activation : list (list Q) → list (list Q).
(** [nn.Dropout] applied by a module whose [training] flag is the boolean;
    the identity when the flag is off. *)
Variable dropout : bool → list (list Q) → list (list Q).
(** What [node_split] over all the nodes of the graph returns to this
    process. *)
Variable node_split_all : list nat.

(** [DistNodeDataLoader(g, nodes, sampler, batch_size, shuffle=False,
    drop_last=False)]: the batches it yields. *)
Definition DistNodeDataLoader_seq (nodes : list nat) (batch_size : Z)
  : M (list (list nat)) :=
  emit (ELoader nodes batch_size false false) ;;
  if decide (batch_size ≤ 0)%Z then lift (Raise ValueError)
  else mret (chunks (Z.to_nat batch_size) nodes).

(** One pass of [for input_nodes, output_nodes, blocks in dataloader]. *)
Definition inference_batch (n i : nat) (layer : SAGEConv) (g : graph)
    (x : tref) (y : string) (seeds : list nat) : M unit :=
  emit (EBatch seeds) ;;
  let blk := sample_block (in_nbrs g) seeds in
  let input_nodes := b_src blk in
  let output_nodes := b_dst blk in
  h ← read x input_nodes;
  let h_dst := take (number_of_dst_nodes blk) h in
  h ← lift (conv i layer blk (h, h_dst));
  w ← get_world;
  let h :=
    if decide (Z.of_nat i ≠ Z.of_nat n - 1)%Z
    then dropout (w_training w) (activation h) else h in
  write y output_nodes h.

(** One pass of [for i, layer in enumerate(self.layers)]; the loop carries
    the references [x] and [y]. *)
Definition inference_layer (m : DistSAGE) (g : graph) (nodes : list nat)
    (batch_size : Z) (i : nat) (layer : SAGEConv) (xy : tref * string)
  : M (tref * string) :=
  let n := length (layers m) in
  y ← (if decide (Z.of_nat i = Z.of_nat n - 1)%Z
       then DistTensor (num_nodes g, n_classes m) "h_last"
       else mret xy.2);
  emit (ESampler [(-1)%Z]) ;;
  batches ← DistNodeDataLoader_seq nodes batch_size;
  for_each batches (inference_batch n i layer g xy.1 y) ;;
  let x := Named y in
  emit EBarrier ;;
  mret (x, y).

Fixpoint inference_layers (m : DistSAGE) (g : graph) (nodes : list nat)
    (batch_size : Z) (i : nat) (ls : list SAGEConv) (xy : tref * string)
  : M (tref * string) :=
  match ls with
  | [] => mret xy
  | layer :: ls' =>
      xy ← inference_layer m g nodes batch_size i layer xy;
      inference_layers m g nodes batch_size (S i) ls' xy
  end.

Definition inference (m : DistSAGE) (g : graph) (x : tref) (batch_size : Z)
  : M string :=
  emit (ENodeSplit true) ;;
  let nodes := node_split_all in
  y ← DistTensor (num_nodes g, n_hidden m) "h";
  xy ← inference_layers m g nodes batch_size 0 (layers m) (x, y);
  mret xy.2.

(** [inference] stopped after the first [k] passes of its layer loop: the
    references [x] and [y] it holds then. *)
Definition inference_upto (k : nat) (m : DistSAGE) (g : graph) (x : tref)
    (batch_size : Z) : M (tref * string) :=
  emit (ENodeSplit true) ;;
  let nodes := node_split_all in
  y ← DistTensor (num_nodes g, n_hidden m) "h";
  inference_layers m g nodes batch_size 0 (take k (layers m)) (x, y).

(** ** Evaluation ([evaluate]) *)

Variable long_nonfinite : float → Z.

(** [labels[ids]] *)
Definition index_labels (labels : list float) (ids : list nat)
  : pyres (list float) :=
  mapM (λ i, match labels !! i with
             | Some l => Ok l
             | None => Raise IndexError
             end) ids.

Definition evaluate (m : DistSAGE) (g : graph) (inputs : tref)
    (labels : list float) (val_nid test_nid : list nat) (batch_size : Z)
  : M (float * float) :=
  (* model.eval() *)
  emit EModelEval ;; set_training false ;;
  (* with th.no_grad(): *)
  w ← get_world;
  let prev := w_grad w in
  emit ENoGradEnter ;; set_grad false ;;
  pred ← inference m g inputs batch_size;
  set_grad prev ;; emit ENoGradExit ;;
  (* model.train() *)
  emit EModelTrain ;; set_training true ;;
  pv ← read (Named pred) val_nid;
  lv ← lift (index_labels labels val_nid);
  val_acc ← lift (compute_acc long_nonfinite pv lv);
  pt ← read (Named pred) test_nid;
  lt ← lift (index_labels labels test_nid);
  test_acc ← lift (compute_acc long_nonfinite pt lt);
  mret (val_acc, test_acc).
End Inference.

(** A mean aggregator with unit weights and no bias, for one-column
    features: a node's own entry plus the mean of its in-neighbours'
    entries (zero when it has none). *)
Definition Qsum (l : list Q) : Q := foldr Qplus 0%Q l.

Definition mean_or_zero (l : list Q) : Q :=
  match l with
  | [] => 0%Q
  | _ => (Qsum l / inject_Z (Z.of_nat (length l)))%Q
  end.

Definition unit_sage (_ : nat) (_ : SAGEConv) (blk : block)
    (hh : list (list Q) * list (list Q)) : pyres (list (list Q)) :=
  Ok (zip_with
        (λ hd nbrs,
           [Qred (default 0%Q (head hd)
                  + mean_or_zero
                      (map (λ p, default 0%Q (hh.1 !! p ≫= head)) nbrs))%Q])
        hh.2 (b_edges blk)).

Definition relu (h : list (list Q)) : list (list Q) :=
  map (map (λ v, if Qle_bool 0 v then v else 0%Q)) h.

Definition eval_dropout (training : bool) (h : list (list Q)) : list (list Q) := h.

Definition empty_world : world := mkWorld ∅ true true [].

(** The rows of the tensor [inference] returns, started in a fresh world. *)
Definition inference_rows (m : DistSAGE) (g : graph) (nodes : list nat)
    (batch_size : Z) : pyres (list (list Q)) :=
  match inference unit_sage relu eval_dropout nodes m g (Given (features g))
                  batch_size empty_world with
  | Ok (y, w) =>
      match w_store w !! y with
      | Some t => Ok (dt_rows t)
      | None => Raise RuntimeError
      end
  | Raise e => Raise e
  end.

Definition two_cycle : graph :=
  mkGraph 2 (λ v, match v with 0 => [1] | 1 => [0] | _ => [] end)
          (mkDT 1 [[1%Q]; [0%Q]]) [Fin 0; Fin 0].

(** ** Command-line arguments *)

Module args.
(** The namespace [parser.parse_args()] returns: one field per
    [add_argument], in that order.  String options without a default are
    [None] when absent. *)
Record t := mk {
  graph_name : option string;
  ip_config : option string;
  part_config : option string;
  n_classes : Z;
  backend : string;
  num_gpus : Z;
  num_epochs : Z;
  num_hidden : Z;
  num_layers : Z;
  fan_out : string;
  batch_size : Z;
  batch_size_eval : Z;
  log_every : Z;
  eval_every : Z;
  lr : Q;
  dropout : Q;
  local_rank : option Z;
  pad_data : bool;
  net_type : string
}.

(** The same command line with the [--pad-data] flag present or absent. *)
Definition with_pad_data (b : bool) (a : t) : t :=
  mk (graph_name a) (ip_config a) (part_config a) (n_classes a) (backend a)
     (num_gpus a) (num_epochs a) (num_hidden a) (num_layers a) (fan_out a)
     (batch_size a) (batch_size_eval a) (log_every a) (eval_every a) (lr a)
     (dropout a) (local_rank a) b (net_type a).
End args.

(** Values that reach [print]. *)
Inductive pyval :=
  | VNone
  | VBool (b : bool)
  | VInt (z : Z)
  | VFloat (q : Q)
  | VStr (s : string).

Definition VOptStr (o : option string) : pyval :=
  match o with Some s => VStr s | None => VNone end.

Definition VOptInt (o : option Z) : pyval :=
  match o with Some z => VInt z | None => VNone end.

(** The attributes of the namespace, as its [repr] lists them. *)
Definition namespace_items (a : args.t) : list (string * pyval) :=
  [ ("graph_name", VOptStr (args.graph_name a));
    ("ip_config", VOptStr (args.ip_config a));
    ("part_config", VOptStr (args.part_config a));
    ("n_classes", VInt (args.n_classes a));
    ("backend", VStr (args.backend a));
    ("num_gpus", VInt (args.num_gpus a));
    ("num_epochs", VInt (args.num_epochs a));
    ("num_hidden", VInt (args.num_hidden a));
    ("num_layers", VInt (args.num_layers a));
    ("fan_out", VStr (args.fan_out a));
    ("batch_size", VInt (args.batch_size a));
    ("batch_size_eval", VInt (args.batch_size_eval a));
    ("log_every", VInt (args.log_every a));
    ("eval_every", VInt (args.eval_every a));
    ("lr", VFloat (args.lr a));
    ("dropout", VFloat (args.dropout a));
    ("local_rank", VOptInt (args.local_rank a));
    ("pad_data", VBool (args.pad_data a));
    ("net_type", VStr (args.net_type a)) ].

(** ** Arithmetic of the script *)

(** [a % b] on Python ints. *)
Definition py_mod (a b : Z) : pyres Z :=
  if decide (b = 0)%Z then Raise ZeroDivisionError else Ok (a mod b)%Z.

(** Round an integer to 53 significant bits, to nearest, ties to even: the
    double nearest to it. *)
Definition round53 (x : Z) : Z :=
  let a := Z.abs x in
  if decide (a < 2 ^ 53)%Z then x
  else
    let e := (Z.log2 a - 52)%Z in
    let q := (a / 2 ^ e)%Z in
    let r := (a mod 2 ^ e)%Z in
    let half := (2 ^ (e - 1))%Z in
    let q' := if decide (half < r ∨ (r = half ∧ Z.odd q = true))%Z
              then (q + 1)%Z else q in
    (Z.sgn x * (q' * 2 ^ e))%Z.

(** The double [0.8] is [m0_8 * 2^-52]. *)
Definition m0_8 : Z := 3602879701896397.

(** [int(n * 0.8)] for a Python int [n]: [n] is converted to a double, the
    product is rounded to a double, and [int] truncates towards zero. *)
Definition int_times_0_8 (n : Z) : pyres Z :=
  let f := round53 n in
  if decide (2 ^ 1024 ≤ Z.abs f)%Z then Raise OverflowError
  else Ok (Z.quot (round53 (f * m0_8)) (2 ^ 52)).

(** [np.mean] of a list of finite floats; of the empty list it is [nan]. *)
Definition np_mean (l : list Q) : float :=
  match l with
  | [] => NaN
  | _ => Fin (Qred (Qsum l / inject_Z (Z.of_nat (length l))))
  end.

(** [s.split(",")] *)
Fixpoint split_comma_aux (cur : string) (s : string) : list string :=
  match s with
  | EmptyString => [cur]
  | String c s' =>
      if Ascii.eqb c ","%char then cur :: split_comma_aux "" s'
      else split_comma_aux (cur +:+ String c "") s'
  end.

Definition split_comma (s : string) : list string := split_comma_aux "" s.

(** ** The training loop ([run]) and the driver ([main]) *)

Inductive device :=
  | Cpu
  | Cuda (dev_id : Z).

(** Further library calls and log lines of [run] and [main].  A log line
    carries the values the script computes for it. *)
Inductive run_event :=
  | Lib (e : event)
  | EPrintArguments (items : list (string * pyval))
  | EInitialize (ip_config : option string) (net_type : string)
  | EInitProcessGroup (backend : string)
  | EDistGraph (graph_name part_config : option string)
  | ENodeSplitMask (mask : string) (force_even with_trainer_ids : bool)
  | EPrintPart
  | EPrintNumClasses (n : Z)
  | ETrainSampler (fanouts : list Z)
  | ETrainLoader (nids : list nat) (batch_size : Z) (shuffle drop_last : bool)
  | EModelTo (d : device)
  | EDistributedDataParallel (device_ids : option device)
  | EAdam (lr : Q)
  | ETrainStep (epoch : Z) (step : nat)
  | EPrintStep (epoch : Z) (step : nat)
  | EPrintEpoch (seconds : Q)
  | EPrintEval (val_acc test_acc : float)
  | EPrintSummary (graph_name : option string) (epoch_time test_acc : float).

(** What the loop of [run] carries from one epoch to the next. *)
Record run_state := mkRunState {
  rs_epoch : Z;
  rs_epoch_time : list Q;
  rs_test_acc : float;
  rs_world : world;
  rs_out : list run_event
}.

(** What the driver gets from the distributed runtime once the graph is
    open. *)
Record cluster := mkCluster {
  c_graph : graph;
  c_rank : Z;
  c_has_trainer_id : bool;
  c_node_split : string → bool → list nat;  (* mask name, with trainer ids *)
  c_node_split_all : list nat
}.

Section Run.
(** The layers as functions, with the weights they have after the training
    steps of a given epoch. *)
Variable conv_after :
  nat → nat → SAGEConv → block → list (list Q) * list (list Q)
  → pyres (list (list Q)).
Variable activation : list (list Q) → list (list Q).
Variable dropout_fn : bool → list (list Q) → list (list Q).
Variable long_nonfinite : float → Z.
(** [int(s)] on a string. *)
Variable py_int : string → pyres Z.
(** [toc - tic] as measured in a given epoch. *)
Variable epoch_seconds : nat → Q.
(** Number of mini-batches the shuffling loader yields in a given epoch. *)
Variable epoch_batches : nat → nat.
(** The runtime: which graph the given addresses and names open. *)
Variable open_graph :
  option string → string → string → option string → option string → cluster.

(** [DistSAGE(in_feats, num_hidden, n_classes, num_layers, F.relu, dropout)]:
    the constructors of the layers refuse negative sizes, [nn.Dropout]
    refuses a probability outside [0, 1]. *)
Definition make_model (in_feats : nat) (num_hidden n_classes num_layers : Z)
    (p : Q) : pyres DistSAGE :=
  if decide (num_hidden < 0 ∨ n_classes < 0)%Z then Raise RuntimeError
  else if decide (Qle_bool 0 p = true ∧ Qle_bool p 1 = true)
  then Ok (DistSAGE_init in_feats (Z.to_nat num_hidden) (Z.to_nat n_classes)
                         num_layers)
  else Raise ValueError.

(** The body of [for step, ... in enumerate(dataloader)]: the forward and
    backward passes and the optimiser step are the library's; the script
    decides when to log. *)
Definition train_step (a : args.t) (epoch : Z) (step : nat)
    (out : list run_event) : pyres (list run_event) :=
  let out := out ++ [ETrainStep epoch step] in
  r ← py_mod (Z.of_nat step + 1) (args.log_every a);
  if decide (r = 0)%Z then Ok (out ++ [EPrintStep epoch step]) else Ok out.

Fixpoint train_steps (a : args.t) (epoch : Z) (steps : list nat)
    (out : list run_event) : pyres (list run_event) :=
  match steps with
  | [] => Ok out
  | step :: steps' =>
      out ← train_step a epoch step out;
      train_steps a epoch steps' out
  end.

(** The body of [for _ in range(args.num_epochs)]. *)
Definition run_epoch (a : args.t) (m : DistSAGE) (c : cluster)
    (val_nid test_nid : list nat) (st : run_state) : pyres run_state :=
  let epoch := (rs_epoch st + 1)%Z in
  let e := Z.to_nat epoch in
  out ← train_steps a epoch (seq 0 (epoch_batches e)) (rs_out st);
  let out := out ++ [EPrintEpoch (epoch_seconds e)] in
  let epoch_time := rs_epoch_time st ++ [epoch_seconds e] in
  r ← py_mod epoch (args.eval_every a);
  if decide (r = 0 ∨ epoch = args.num_epochs a)%Z then
    let g := c_graph c in
    let w0 := rs_world st in
    let w0 := mkWorld (w_store w0) (w_training w0) (w_grad w0) [] in
    '(accs, w) ← evaluate (conv_after e) activation dropout_fn
                   (c_node_split_all c) long_nonfinite m g
                   (Given (features g)) (labels g) val_nid test_nid
                   (args.batch_size_eval a) w0;
    let out := out ++ map Lib (w_log w) ++ [EPrintEval accs.1 accs.2] in
    Ok (mkRunState epoch epoch_time accs.2 w out)
  else Ok (mkRunState epoch epoch_time (rs_test_acc st) (rs_world st) out).

Fixpoint run_epochs (a : args.t) (m : DistSAGE) (c : cluster)
    (val_nid test_nid : list nat) (iters : list Z) (st : run_state)
  : pyres run_state :=
  match iters with
  | [] => Ok st
  | _ :: iters' =>
      st ← run_epoch a m c val_nid test_nid st;
      run_epochs a m c val_nid test_nid iters' st
  end.

Definition run (a : args.t) (d : device)
    (data : list nat * list nat * list nat * nat * Z * cluster)
    (out : list run_event) : pyres (float * float * list run_event) :=
  let '(train_nid, val_nid, test_nid, in_feats, n_classes, c) := data in
  fanouts ← mapM py_int (split_comma (args.fan_out a));
  let out := out ++ [ETrainSampler fanouts] in
  let out := out ++ [ETrainLoader train_nid (args.batch_size a) true false] in
  m ← make_model in_feats (args.num_hidden a) n_classes (args.num_layers a)
                 (args.dropout a);
  let out := out ++ [EModelTo d] in
  let out :=
    out ++ [EDistributedDataParallel
              (if decide (args.num_gpus a = 0)%Z then None else Some d)] in
  let out := out ++ [EAdam (args.lr a)] in
  let st := mkRunState 0 [] (Fin 0) (mkWorld ∅ true true []) out in
  st ← run_epochs a m c val_nid test_nid (py_range 0 (args.num_epochs a)) st;
  k ← int_times_0_8 (args.num_epochs a);
  Ok (np_mean (py_slice_from (- k) (rs_epoch_time st)), rs_test_acc st,
      rs_out st).

(** [th.isnan] *)
Definition isnan (x : float) : bool :=
  match x with NaN => true | _ => false end.

(** [==] on floats: [nan] equals nothing. *)
Definition float_eqb (x y : float) : bool :=
  match x, y with
  | Fin p, Fin q => Qeq_bool p q
  | PosInf, PosInf => true
  | _, _ => false
  end.

(** [th.unique]: each value once (the order of the result is not used). *)
Fixpoint th_unique (l : list float) : list float :=
  match l with
  | [] => []
  | x :: l' =>
      let u := th_unique l' in
      if existsb (float_eqb x) u then u else x :: u
  end.

(** The class count [main] hands to [run]. *)
Definition resolve_n_classes (a : args.t) (g : graph) : pyres Z :=
  let n_classes := args.n_classes a in
  if decide (n_classes = 0)%Z then
    labels ← index_labels (labels g) (seq 0 (num_nodes g));
    let n_classes :=
      Z.of_nat (length (th_unique (filter (λ x, isnan x = false) labels))) in
    Ok n_classes
  else Ok n_classes.

Definition main (a : args.t) (out : list run_event) : pyres (list run_event) :=
  let out := out ++ [EInitialize (args.ip_config a) (args.net_type a)] in
  let out := out ++ [EInitProcessGroup (args.backend a)] in
  let out := out ++ [EDistGraph (args.graph_name a) (args.part_config a)] in
  let c := open_graph (args.ip_config a) (args.net_type a) (args.backend a)
                      (args.graph_name a) (args.part_config a) in
  let g := c_graph c in
  let tid := c_has_trainer_id c in
  let out := out ++ [ENodeSplitMask "train_mask" true tid] in
  let train_nid := c_node_split c "train_mask" tid in
  let out := out ++ [ENodeSplitMask "val_mask" true tid] in
  let val_nid := c_node_split c "val_mask" tid in
  let out := out ++ [ENodeSplitMask "test_mask" true tid] in
  let test_nid := c_node_split c "test_mask" tid in
  let out := out ++ [EPrintPart] in
  let d :=
    if decide (args.num_gpus a = 0)%Z then Cpu
    else Cuda (c_rank c mod args.num_gpus a)%Z in
  n_classes ← resolve_n_classes a g;
  let out := out ++ [EPrintNumClasses n_classes] in
  let in_feats := dt_cols (features g) in
  let data := (train_nid, val_nid, test_nid, in_feats, n_classes, c) in
  '(epoch_time, test_acc, out) ← run a d data out;
  Ok (out ++ [EPrintSummary (args.graph_name a) epoch_time test_acc]).

(** The script: [args = parser.parse_args()], the [Arguments:] line, then
    [main(args)]. *)
Definition script (a : args.t) : pyres (list run_event) :=
  main a [EPrintArguments (namespace_items a)].
End Run.

(** ** Instances used to count applications and to track shapes *)

(** The operations a forward pass applies, in order. *)
Inductive op :=
  | OpConv (i : nat) (layer : SAGEConv)
  | OpActivation
  | OpDropout.

Definition forward_ops (m : DistSAGE) (blocks : list block) : pyres (list op) :=
  forward (λ i layer _ t, Ok (t ++ [OpConv i layer]))
          (λ t, t ++ [OpActivation]) (λ t, t ++ [OpDropout]) m blocks [].

#[global] Instance SAGEConv_eq_dec : EqDecision SAGEConv.
Proof. solve_decision. Defined.
#[global] Instance op_eq_dec : EqDecision op.
Proof. solve_decision. Defined.

Definition count_op (o : op) (l : list op) : nat :=
  length (filter (λ o', o' = o) l).

(** A convolution seen on shapes only: it accepts one row per source node
    with [in_feats] columns and gives one row per destination node with
    [out_feats] columns. *)
Definition shape_conv (_ : nat) (layer : SAGEConv) (blk : block) (s : nat * nat)
  : pyres (nat * nat) :=
  if decide (s = (number_of_src_nodes blk, in_feats layer))
  then Ok (number_of_dst_nodes blk, out_feats layer)
  else Raise RuntimeError.

(** Per-layer blocks as the sampler hands them over: the destination nodes
    of one block are the source nodes of the next. *)
Fixpoint blocks_chain (blocks : list block) : Prop :=
  match blocks with
  | b1 :: ((b2 :: _) as rest) =>
      number_of_dst_nodes b1 = number_of_src_nodes b2 ∧ blocks_chain rest
  | _ => True
  end.

(** ** A small cluster to run the script on *)

(** [int(s)] for a string of decimal digits. *)
Fixpoint digits_value (acc : Z) (s : string) : pyres Z :=
  match s with
  | EmptyString => Ok acc
  | String c s' =>
      let d := (Z.of_nat (nat_of_ascii c) - 48)%Z in
      if decide (0 ≤ d ≤ 9)%Z then digits_value (10 * acc + d) s'
      else Raise ValueError
  end.

Definition digits_int (s : string) : pyres Z :=
  match s with
  | EmptyString => Raise ValueError
  | _ => digits_value 0 s
  end.

Definition toy_cluster : cluster :=
  mkCluster two_cycle 0 false
            (λ mask _, if decide (mask = "train_mask") then [0] else [1])
            [0; 1].

Definition toy_args : args.t :=
  args.mk (Some "toy") (Some "ip_config.txt") (Some "toy.json") 0 "gloo" 0 2
          1 2 "10,25" 1000 100000 20 5 (3 # 1000) (1 # 2) None false "socket".

Definition toy_long (_ : float) : Z := 0%Z.

Definition toy_script (a : args.t) : pyres (list run_event) :=
  script (λ _, unit_sage) relu eval_dropout toy_long digits_int
         (λ e, inject_Z (Z.of_nat e)) (λ _, 1)
         (λ _ _ _ _ _, toy_cluster) a.

Definition toy_run (a : args.t) : pyres (float * float * list run_event) :=
  run (λ _, unit_sage) relu eval_dropout toy_long digits_int
      (λ e, inject_Z (Z.of_nat e)) (λ _, 1) a Cpu
      ([0], [1], [1], 1, 1%Z, toy_cluster) [].

(** Layers paired with blocks, as [zip(self.layers, blocks)] pairs them,
    fit together when each layer gives the columns the next one takes and
    each block ends in the nodes the next one starts from. *)
Fixpoint pairs_chain (lbs : list (SAGEConv * block)) : Prop :=
  match lbs with
  | p1 :: ((p2 :: _) as rest) =>
      (out_feats p1.1 = in_feats p2.1
       ∧ number_of_dst_nodes p1.2 = number_of_src_nodes p2.2)
      ∧ pairs_chain rest
  | _ => True
  end.

(** Each layer gives the columns the next one takes. *)
Fixpoint layers_chain (ls : list SAGEConv) : Prop :=
  match ls with
  | l1 :: ((l2 :: _) as rest) => out_feats l1 = in_feats l2 ∧ layers_chain rest
  | _ => True
  end.

(** The library calls of one pass of the layer loop of [inference], as the
    specification lists them. *)
Definition layer_events (m : DistSAGE) (g : graph) (nodes : list nat)
    (batch_size : Z) (i : nat) : list event :=
  (if decide (Z.of_nat i = Z.of_nat (length (layers m)) - 1)%Z
   then [EDistTensor (num_nodes g, n_classes m) "h_last" true] else [])
  ++ [ESampler [(-1)%Z]]
  ++ [ELoader nodes batch_size false false]
  ++ map EBatch (chunks (Z.to_nat batch_size) nodes)
  ++ [EBarrier].

(** ** What the specification's words denote *)

(** The mean [run] would return if it averaged the last
    [ceil(0.8 * num_epochs)] epoch durations. *)
Definition claimed_epoch_mean (durations : list Q) (num_epochs : Z) : float :=
  np_mean (drop (length durations - Z.to_nat ((4 * num_epochs + 4) / 5))
                durations).

(** One representative for each float value. *)
Definition canon (x : float) : float :=
  match x with
  | Fin q => Fin (Qred q)
  | _ => x
  end.

(** [vals] lists the distinct non-NaN values of [labels]: each of its
    entries is a non-NaN label, every non-NaN label equals one of them, and
    no two of them are equal. *)
Definition lists_distinct_values (labels vals : list float) : Prop :=
  (∀ v, v ∈ vals → isnan v = false ∧ ∃ l, l ∈ labels ∧ float_eqb l v = true)
  ∧ (∀ l, l ∈ labels → isnan l = false → ∃ v, v ∈ vals ∧ float_eqb l v = true)
  ∧ (∀ i j v v', vals !! i = Some v → vals !! j = Some v' →
       float_eqb v v' = true → i = j).

(** The operations of a forward pass, layer by layer. *)
Fixpoint ops_from (n i : nat) (lbs : list (SAGEConv * block)) : list op :=
  match lbs with
  | [] => []
  | (layer, _) :: rest =>
      OpConv i layer
      :: (if decide (Z.of_nat i ≠ Z.of_nat n - 1)%Z
          then [OpActivation; OpDropout] else [])
      ++ ops_from n (S i) rest
  end.

(** What a step leaves alone: the log up to the events it adds, the mode
    flags, and the shapes of the tensors that exist. *)
Definition extends_by (evs : list event) (w w' : world) : Prop :=
  w_log w' = w_log w ++ evs
  ∧ w_training w' = w_training w
  ∧ w_grad w' = w_grad w
  ∧ ∀ name t, w_store w !! name = Some t →
      ∃ t', w_store w' !! name = Some t' ∧ dt_shape t' = dt_shape t.

(** * Properties *)

Set Warnings "-clear-no-such-hyp".

(** ** Accuracy *)

Lemma is_argmax_unique (r : list Q) (i j : nat) :
  is_argmax r i → is_argmax r j → i = j.
Proof.
  intros (v & Hv & Hmax & Hfirst) (v' & Hv' & Hmax' & Hfirst').
  destruct (lt_eq_lt_dec i j) as [[Hlt | ->] | Hlt]; [| done |]; exfalso.
  - specialize (Hfirst' i v Hlt Hv). specialize (Hmax j v' Hv').
    exact (Qlt_not_le _ _ Hfirst' Hmax).
  - specialize (Hfirst j v' Hlt Hv'). specialize (Hmax' i v Hv).
    exact (Qlt_not_le _ _ Hfirst Hmax').
Qed.

Lemma argmax_from_spec (pre r : list Q) (best : Q) (besti : nat) :
  pre !! besti = Some best →
  (∀ j w, pre !! j = Some w → (w <= best)%Q) →
  (∀ j w, j < besti → pre !! j = Some w → (w < best)%Q) →
  is_argmax (pre ++ r) (argmax_from best besti (length pre) r).
Proof.
  revert pre best besti. induction r as [| v r IH]; intros pre best besti Hb Hmax Hfirst.
  - rewrite app_nil_r. exists best. eauto.
  - simpl. replace (pre ++ v :: r) with ((pre ++ [v]) ++ r) by (by rewrite <- app_assoc).
    replace (S (length pre)) with (length (pre ++ [v])) by (rewrite length_app; simpl; lia).
    destruct (best ?= v)%Q eqn:Hc.
    + apply Qeq_alt in Hc. apply IH.
      * rewrite lookup_app_l; [done | by eapply lookup_lt_Some].
      * intros j w Hj. apply lookup_app_Some in Hj as [Hj | [_ Hj]]; [eauto |].
        apply list_lookup_singleton_Some in Hj as [_ <-]. rewrite Hc. apply Qle_refl.
      * intros j w Hlt Hj. apply (Hfirst j); [done |].
        rewrite lookup_app_l in Hj; [done |].
        apply lookup_lt_Some in Hb. lia.
    + apply Qlt_alt in Hc. apply IH.
      * rewrite lookup_app_r by done. by rewrite Nat.sub_diag.
      * intros j w Hj. apply lookup_app_Some in Hj as [Hj | [_ Hj]].
        -- apply Qle_trans with best; [eauto | by apply Qlt_le_weak].
        -- apply list_lookup_singleton_Some in Hj as [_ <-]. apply Qle_refl.
      * intros j w Hlt Hj. rewrite lookup_app_l in Hj by done.
        apply Qle_lt_trans with best; eauto.
    + apply Qgt_alt in Hc. apply IH.
      * rewrite lookup_app_l; [done | by eapply lookup_lt_Some].
      * intros j w Hj. apply lookup_app_Some in Hj as [Hj | [_ Hj]]; [eauto |].
        apply list_lookup_singleton_Some in Hj as [_ <-]. by apply Qlt_le_weak.
      * intros j w Hlt Hj. apply (Hfirst j); [done |].
        rewrite lookup_app_l in Hj; [done |].
        apply lookup_lt_Some in Hb. lia.
Qed.

Lemma argmax_spec (r : list Q) (i : nat) : argmax r = Ok i → is_argmax r i.
Proof.
  destruct r as [| v r]; [done |]. simpl. intros [= <-].
  apply (argmax_from_spec [v] r v 0); [done | |].
  - intros [| j] w Hj; simplify_eq/=. apply Qle_refl.
  - intros; lia.
Qed.

Lemma argmax_complete (r : list Q) (i : nat) : is_argmax r i → argmax r = Ok i.
Proof.
  intros Hi. destruct (argmax r) as [j | e] eqn:Hj.
  - f_equal. eapply is_argmax_unique; [by apply argmax_spec | done].
  - destruct r; [| done]. by destruct Hi as (v & Hv & _).
Qed.

Lemma argmax_dim1_complete (pred : list (list Q)) (am : list nat) :
  Forall2 is_argmax pred am → argmax_dim1 pred = Ok am.
Proof.
  unfold argmax_dim1. induction 1 as [| r i pred am Hr _ IH]; [done |].
  simpl. rewrite (argmax_complete r i Hr). simpl.
  cbv [mbind pyres_bind] in *. by rewrite IH.
Qed.


Lemma tensor_eq_same_length (a b : list Z) :
  length a = length b → tensor_eq a b = Ok (zip_with Z.eqb a b).
Proof. intros H. unfold tensor_eq. by rewrite decide_True. Qed.

Lemma compute_acc_unfold long_nonfinite pred labels am :
  Forall2 is_argmax pred am →
  compute_acc long_nonfinite pred labels =
    hits ← tensor_eq (map Z.of_nat am) (map (long long_nonfinite) labels);
    Ok (fdiv (count_true hits) (length pred)).
Proof.
  intros H. unfold compute_acc. by rewrite (argmax_dim1_complete pred am H).
Qed.







(** C10, as stated, fails: with two rows whose argmax is column 0 and the
    single label 0 the lengths differ, and the result is 1.0, which is the
    fraction of matching label entries (one of one). *)
Lemma compute_acc_lengths_counterexample :
  ¬ (∀ (pred : list (list Q)) (labels : list float) (am : list nat),
       length pred ≠ length labels →
       Forall2 is_argmax pred am →
       compute_acc toy_long pred labels
       ≠ Ok (fdiv (matching_rows toy_long am labels) (length labels))).
Proof.
  intros H.
  apply (H [[1; 0]; [1; 0]]%Q [Fin 0] [0; 0]).
  - discriminate.
  - repeat constructor; by apply argmax_spec.
  - reflexivity.
Qed.

Lemma tensor_eq_single_r (a : list Z) (y : Z) :
  length a ≠ 1 → tensor_eq a [y] = Ok (map (λ x, Z.eqb x y) a).
Proof.
  intros H. unfold tensor_eq. rewrite decide_False by done.
  by destruct a as [| x1 [| x2 a]].
Qed.

Lemma tensor_eq_single_l (x : Z) (b : list Z) :
  length b ≠ 1 → tensor_eq [x] b = Ok (map (λ y, Z.eqb x y) b).
Proof.
  intros H. unfold tensor_eq. rewrite decide_False by (simpl; lia).
  by destruct b as [| y1 [| y2 b]].
Qed.

Lemma tensor_eq_mismatch (a b : list Z) :
  length a ≠ length b → length a ≠ 1 → length b ≠ 1 →
  tensor_eq a b = Raise RuntimeError.
Proof.
  intros H Ha Hb. unfold tensor_eq. rewrite decide_False by done.
  destruct a as [| x1 [| x2 a]], b as [| y1 [| y2 b]]; done.
Qed.

(** C10, amended: the number of matches is always divided by the number of
    rows of [pred].  With equal lengths the comparison is elementwise; a
    single label is compared with every row; a single row is compared with
    every label, so that the count of matching labels is divided by one; any
    other pair of different lengths raises.  For an empty [pred] (and at most
    one label) the division is 0/0 and the result is [nan]. *)
Theorem compute_acc_lengths (long_nonfinite : float → Z)
    (pred : list (list Q)) (labels : list float) (am : list nat) :
  Forall2 is_argmax pred am →
  let n := length pred in
  let m := length labels in
  let acc := compute_acc long_nonfinite pred labels in
  (n = m → acc = Ok (fdiv (matching_rows long_nonfinite am labels) n))
  ∧ (∀ l, labels = [l] → n ≠ 1 →
       acc = Ok (fdiv (count_true
                         (map (λ i, Z.eqb (Z.of_nat i) (long long_nonfinite l)) am))
                      n))
  ∧ (∀ i, am = [i] → m ≠ 1 →
       acc = Ok (fdiv (count_true
                         (map (λ l, Z.eqb (Z.of_nat i) (long long_nonfinite l))
                              labels))
                      1))
  ∧ (n ≠ m → n ≠ 1 → m ≠ 1 → acc = Raise RuntimeError)
  ∧ (n = 0 → m ≤ 1 → acc = Ok NaN).
Proof.
  intros Ham n m acc.
  assert (Ham_len : length am = n) by (symmetry; eapply Forall2_length, Ham).
  subst acc. rewrite (compute_acc_unfold _ pred labels am Ham). fold n.
  split_and!.
  - intros Hnm. rewrite tensor_eq_same_length by (rewrite !length_map; lia).
    cbn [mbind pyres_bind]. by rewrite zip_with_fmap_l, zip_with_fmap_r.
  - intros l -> Hn. cbn [map].
    rewrite tensor_eq_single_r by (rewrite length_map; lia).
    cbn [mbind pyres_bind]. by rewrite map_map.
  - intros i -> Hm. cbn [map].
    rewrite tensor_eq_single_l by (rewrite length_map; fold m; lia).
    cbn [mbind pyres_bind]. simpl in Ham_len. by rewrite map_map, <- Ham_len.
  - intros Hnm Hn Hm.
    by rewrite tensor_eq_mismatch by (rewrite ?length_map; fold m; lia).
  - intros Hn Hm. destruct am; [| simpl in *; lia]. subst m.
    destruct labels as [| l1 [| l2 labels]]; [| | simpl in *; lia];
      unfold tensor_eq; simpl; by rewrite Hn.
Qed.

Lemma compute_acc_lengths_witness :
  compute_acc toy_long [[1; 0]]%Q [Fin 0; Fin 0] = Ok (Fin 2).
Proof.
  destruct (compute_acc_lengths toy_long [[1; 0]]%Q [Fin 0; Fin 0] [0])
    as (_ & _ & Hrow & _).
  - repeat constructor; by apply argmax_spec.
  - rewrite (Hrow 0%nat); [reflexivity | reflexivity | discriminate].
Defined.

(** ** The model *)

Lemma py_range_length (a b : Z) : length (py_range a b) = Z.to_nat (b - a).
Proof. unfold py_range. by rewrite length_map, length_seq. Qed.

Lemma foldl_append_const {A B} (x : A) (r : list B) (l0 : list A) :
  foldl (λ ls _, ls ++ [x]) l0 r = l0 ++ replicate (length r) x.
Proof.
  revert l0. induction r as [| b r IH]; intros l0; simpl.
  - by rewrite app_nil_r.
  - rewrite IH. by rewrite <- app_assoc.
Qed.

Lemma DistSAGE_init_layers (i h c : nat) (n : Z) :
  layers (DistSAGE_init i h c n) =
    mkSAGEConv i h "mean"
    :: replicate (Z.to_nat (n - 2)) (mkSAGEConv h h "mean")
    ++ [mkSAGEConv h c "mean"].
Proof.
  unfold DistSAGE_init. cbn [layers]. rewrite foldl_append_const.
  rewrite py_range_length. simpl. do 3 f_equal. lia.
Qed.

Lemma DistSAGE_init_length (i h c : nat) (n : Z) :
  length (layers (DistSAGE_init i h c n)) = 2 + Z.to_nat (n - 2).
Proof.
  rewrite DistSAGE_init_layers. simpl. rewrite length_app, length_replicate.
  simpl. lia.
Qed.

(** For two layers and more the model has as many layers as asked for. *)
Lemma DistSAGE_init_length_ge2 (i h c : nat) (n : Z) :
  (2 ≤ n)%Z → Z.of_nat (length (layers (DistSAGE_init i h c n))) = n.
Proof. intros H. rewrite DistSAGE_init_length. lia. Qed.

Lemma forward_loop_ops (n i : nat) (lbs : list (SAGEConv * block)) (t : list op) :
  forward_loop (λ i layer _ t, Ok (t ++ [OpConv i layer]))
               (λ t, t ++ [OpActivation]) (λ t, t ++ [OpDropout]) n i lbs t
  = Ok (t ++ ops_from n i lbs).
Proof.
  revert i t. induction lbs as [| [layer blk] rest IH]; intros i t; simpl.
  - by rewrite app_nil_r.
  - cbn [mbind pyres_bind]. rewrite IH. f_equal.
    case_decide; simpl; by rewrite <- ?app_assoc.
Qed.

Lemma count_op_app (o : op) (l1 l2 : list op) :
  count_op o (l1 ++ l2) = count_op o l1 + count_op o l2.
Proof. unfold count_op. by rewrite filter_app, length_app. Qed.

Lemma count_op_cons (o o' : op) (l : list op) :
  count_op o (o' :: l) = (if decide (o' = o) then 1 else 0) + count_op o l.
Proof. unfold count_op. rewrite filter_cons. by case_decide. Qed.

Lemma count_op_nil (o : op) : count_op o [] = 0.
Proof. done. Qed.

Lemma ops_from_counts (n i : nat) (lbs : list (SAGEConv * block)) :
  i + length lbs ≤ n →
  count_op OpActivation (ops_from n i lbs)
  = (if decide (lbs ≠ [] ∧ i + length lbs = n) then length lbs - 1 else length lbs)
  ∧ count_op OpDropout (ops_from n i lbs) = count_op OpActivation (ops_from n i lbs).
Proof.
  revert i. induction lbs as [| [layer blk] rest IH]; intros i Hle.
  - split; [| done]. case_decide; [naive_solver | done].
  - simpl in Hle. destruct (IH (S i)) as [IHa IHd]; [lia |].
    cbn [ops_from]. rewrite !count_op_cons, !count_op_app, IHd, IHa.
    cbn [length]. rewrite !(decide_False (P := OpConv _ _ = _)) by done.
    split.
    + destruct (decide (Z.of_nat i ≠ Z.of_nat n - 1)%Z);
        rewrite ?count_op_cons, ?count_op_nil;
        rewrite ?(decide_True (P := OpActivation = OpActivation)) by done;
        rewrite ?(decide_False (P := OpDropout = OpActivation)) by done;
        repeat case_decide; destruct rest; simpl in *; try lia;
        try (exfalso; intuition (try done; lia)).
    + destruct (decide (Z.of_nat i ≠ Z.of_nat n - 1)%Z);
        rewrite ?count_op_cons, ?count_op_nil;
        rewrite ?(decide_True (P := OpActivation = OpActivation)) by done;
        rewrite ?(decide_True (P := OpDropout = OpDropout)) by done;
        rewrite ?(decide_False (P := OpDropout = OpActivation)) by done;
        rewrite ?(decide_False (P := OpActivation = OpDropout)) by done; lia.
Qed.

Lemma forward_ops_ge2 (i h c : nat) (n : Z) (blocks : list block) :
  (2 ≤ n)%Z → length blocks = Z.to_nat n →
  ∃ ops, forward_ops (DistSAGE_init i h c n) blocks = Ok ops
         ∧ count_op OpActivation ops = Z.to_nat n - 1
         ∧ count_op OpDropout ops = Z.to_nat n - 1.
Proof.
  intros Hn Hlen. unfold forward_ops, forward. rewrite forward_loop_ops.
  rewrite app_nil_l. eexists; split; [done |].
  assert (Hl : length (layers (DistSAGE_init i h c n)) = Z.to_nat n)
    by (rewrite DistSAGE_init_length; lia).
  destruct (ops_from_counts (length (layers (DistSAGE_init i h c n))) 0
              (zip (layers (DistSAGE_init i h c n)) blocks)) as [Ha Hd].
  { rewrite length_zip. lia. }
  assert (Hz : length (zip (layers (DistSAGE_init i h c n)) blocks) = Z.to_nat n)
    by (rewrite length_zip; lia).
  rewrite Hd, Ha, Hz, Hl. rewrite decide_True; [done |]. split; [| lia].
  intros Hnil. rewrite Hnil in Hz. simpl in Hz. lia.
Qed.

(** C3 at [n_layers = 1]: the constructor appends the first and the last
    layer whatever [n_layers] is, so the model has two layers; a forward pass
    over one block stops after the first of them and applies activation and
    dropout once. *)
Theorem DistSAGE_init_one_layer (i h c : nat) (b : block) :
  layers (DistSAGE_init i h c 1)
  = [mkSAGEConv i h "mean"; mkSAGEConv h c "mean"]
  ∧ forward_ops (DistSAGE_init i h c 1) [b]
    = Ok [OpConv 0 (mkSAGEConv i h "mean"); OpActivation; OpDropout].
Proof. split; reflexivity. Qed.

Lemma DistSAGE_init_layers_chain (i h c : nat) (n : Z) :
  layers_chain (layers (DistSAGE_init i h c n)).
Proof.
  rewrite DistSAGE_init_layers.
  assert (Hmid : ∀ k, layers_chain
            (replicate k (mkSAGEConv h h "mean") ++ [mkSAGEConv h c "mean"])
          ∧ (head (replicate k (mkSAGEConv h h "mean") ++ [mkSAGEConv h c "mean"])
             ≫= λ l, Some (in_feats l)) = Some h).
  { induction k as [| k [IH1 IH2]]; [done |]. split; [| done].
    simpl. destruct (replicate k _ ++ _) eqn:E; [done |].
    simpl in IH2. by injection IH2 as ->. }
  destruct (Hmid (Z.to_nat (n - 2))) as [H1 H2].
  simpl. destruct (replicate _ _ ++ _) eqn:E; [done |].
  simpl in H2. by injection H2 as ->.
Qed.

Lemma pairs_chain_zip (ls : list SAGEConv) (bs : list block) :
  layers_chain ls → blocks_chain bs → pairs_chain (zip ls bs).
Proof.
  revert bs. induction ls as [| l1 ls IH]; intros bs Hl Hb; [done |].
  destruct bs as [| b1 bs]; [done |].
  destruct ls as [| l2 ls]; [done |].
  destruct bs as [| b2 bs]; [done |].
  destruct Hl as [Hl1 Hl], Hb as [Hb1 Hb].
  split; [done |]. by apply (IH (b2 :: bs)).
Qed.

Lemma last_zip {A B} (l : list A) (k : list B) (a : A) (b : B) :
  length l = length k → last l = Some a → last k = Some b →
  last (zip l k) = Some (a, b).
Proof.
  revert k. induction l as [| a1 l IH]; intros k Hlen Hl Hk; [done |].
  destruct k as [| b1 k]; [done |].
  destruct l as [| a2 l], k as [| b2 k]; simplify_eq/=; [done |].
  apply (IH (b2 :: k)); simpl; [lia | done | done].
Qed.

Section ForwardShape.
Context {T : Type}.
Variable layer_call : nat → SAGEConv → block → T → pyres T.
Variable activation : T → T.
Variable dropout : T → T.
Variable shape : T → nat * nat.

Hypothesis layer_call_shape : ∀ i layer blk t,
  shape t = (number_of_src_nodes blk, in_feats layer) →
  ∃ t', layer_call i layer blk t = Ok t'
        ∧ shape t' = (number_of_dst_nodes blk, out_feats layer).
Hypothesis activation_shape : ∀ t, shape (activation t) = shape t.
Hypothesis dropout_shape : ∀ t, shape (dropout t) = shape t.

Lemma forward_loop_shape (n i : nat) (lbs : list (SAGEConv * block))
    (x : T) (first final : SAGEConv * block) :
  pairs_chain lbs →
  head lbs = Some first → last lbs = Some final →
  shape x = (number_of_src_nodes first.2, in_feats first.1) →
  ∃ out, forward_loop layer_call activation dropout n i lbs x = Ok out
         ∧ shape out = (number_of_dst_nodes final.2, out_feats final.1).
Proof.
  revert i x first. induction lbs as [| [layer blk] rest IH];
    intros i x first Hchain Hhead Hlast Hx; [done |].
  simpl in Hhead. injection Hhead as <-. simpl in Hx.
  destruct (layer_call_shape i layer blk x Hx) as (t' & Ht' & Hs).
  cbn [forward_loop]. rewrite Ht'. cbn [mbind pyres_bind].
  set (h := if decide _ then _ else _).
  assert (Hh : shape h = (number_of_dst_nodes blk, out_feats layer)).
  { subst h. case_decide; [| done]. by rewrite dropout_shape, activation_shape. }
  destruct rest as [| [layer2 blk2] rest].
  - simpl in Hlast. injection Hlast as <-. by exists h.
  - destruct Hchain as ((Hfeat & Hnodes) & Hchain).
    apply (IH (S i) h (layer2, blk2)); [done | done | |].
    + by rewrite last_cons_cons in Hlast.
    + rewrite Hh. simpl in *. by rewrite Hfeat, Hnodes.
Qed.

(** C5: for per-layer blocks, as many as the model has layers, and an input
    with one row per source node of the first block and [in_feats] columns,
    the forward pass returns a tensor with one row per destination node of
    the last block (the seeds) and [n_classes] columns. *)
Theorem forward_output_shape (in_feats n_hidden n_classes : nat) (n_layers : Z)
    (blocks : list block) (x : T) (b_first b_last : block) :
  let m := DistSAGE_init in_feats n_hidden n_classes n_layers in
  length blocks = length (layers m) →
  blocks_chain blocks →
  head blocks = Some b_first →
  last blocks = Some b_last →
  shape x = (number_of_src_nodes b_first, in_feats) →
  ∃ out, forward layer_call activation dropout m blocks x = Ok out
         ∧ shape out = (number_of_dst_nodes b_last, n_classes).
Proof.
  intros m Hlen Hchain Hhead Hlast Hx. unfold forward.
  apply (forward_loop_shape _ 0 _ x
           (mkSAGEConv in_feats n_hidden "mean", b_first)
           (mkSAGEConv n_hidden n_classes "mean", b_last)).
  - apply pairs_chain_zip; [apply DistSAGE_init_layers_chain | done].
  - subst m. rewrite DistSAGE_init_layers.
    destruct blocks; by simplify_eq/=.
  - apply last_zip; [done | | done].
    subst m. rewrite DistSAGE_init_layers.
    by rewrite app_comm_cons, last_snoc.
  - done.
Qed.
End ForwardShape.

Lemma forward_output_shape_witness :
  forward shape_conv id id (DistSAGE_init 3 4 5 2)
          [mkBlock [0; 1] [0; 1; 2]%nat []; mkBlock [0] [0; 1]%nat []] (3, 3)
  = Ok (1, 5).
Proof.
  destruct (forward_output_shape shape_conv id id id) with
    (in_feats := 3) (n_hidden := 4) (n_classes := 5) (n_layers := 2%Z)
    (blocks := [mkBlock [0; 1] [0; 1; 2]%nat []; mkBlock [0] [0; 1]%nat []])
    (x := (3, 3)) (b_first := mkBlock [0; 1] [0; 1; 2]%nat [])
    (b_last := mkBlock [0] [0; 1]%nat [])
    as (out & Hout & Hshape).
  - intros i layer blk t Ht. exists (number_of_dst_nodes blk, out_feats layer).
    unfold shape_conv. simpl in Ht. by rewrite decide_True.
  - reflexivity.
  - reflexivity.
  - reflexivity.
  - simpl. done.
  - reflexivity.
  - reflexivity.
  - reflexivity.
  - rewrite Hout. simpl in Hshape. by rewrite Hshape.
Defined.

(** ** Inference *)

Lemma M_bind_Ok {A B} (m : M A) (f : A → M B) (w : world) (r : B * world) :
  (m ≫= f) w = Ok r ↔ ∃ a w1, m w = Ok (a, w1) ∧ f a w1 = Ok r.
Proof.
  unfold mbind, M_bind. destruct (m w) as [[a w1] | e]; [| naive_solver].
  split; [eauto | by intros (? & ? & [= -> ->] & ?)].
Qed.

Lemma lift_Ok {A} (r : pyres A) (w : world) (a : A) (w' : world) :
  lift r w = Ok (a, w') ↔ r = Ok a ∧ w' = w.
Proof. unfold lift. destruct r; naive_solver. Qed.

Lemma mret_Ok {A} (a a' : A) (w w' : world) :
  (mret a : M A) w = Ok (a', w') ↔ a' = a ∧ w' = w.
Proof. unfold mret, M_ret. naive_solver. Qed.

(** Take a successful run of a sequence of steps apart. *)
Ltac inv_M :=
  repeat match goal with
    | H : (_ ≫= _) _ = Ok _ |- _ =>
        apply M_bind_Ok in H as (? & ? & ? & H)
    | H : lift _ _ = Ok (_, _) |- _ => apply lift_Ok in H as [? ?]
    | H : mret _ _ = Ok (_, _) |- _ => apply mret_Ok in H as [? ?]
    | H : get_world _ = Ok _ |- _ => injection H as ? ?
    | H : set_store _ _ = Ok _ |- _ => injection H as ? ?
    | H : set_training _ _ = Ok _ |- _ => injection H as ? ?
    | H : set_grad _ _ = Ok _ |- _ => injection H as ? ?
    end; subst.

Ltac inv_emit :=
  repeat match goal with
    | H : emit _ _ = Ok _ |- _ => injection H as ? ?
    end; subst.

Lemma deref_Ok (x : tref) (w : world) (t : dtensor) (w' : world) :
  deref x w = Ok (t, w') → w' = w.
Proof. unfold deref. destruct x; [naive_solver |]. destruct (_ !! _); naive_solver. Qed.

Lemma deref_Named_Ok (y : string) (w : world) (t : dtensor) (w' : world) :
  deref (Named y) w = Ok (t, w') → w_store w !! y = Some t ∧ w' = w.
Proof. unfold deref. destruct (_ !! _); naive_solver. Qed.

Lemma read_Ok (x : tref) (ids : list nat) (w : world) h (w' : world) :
  read x ids w = Ok (h, w') → w' = w.
Proof. unfold read. intros H. inv_M. by eapply deref_Ok. Qed.

Lemma scatter_rows_length rows ids h rows' :
  scatter_rows rows ids h = Ok rows' → length rows' = length rows.
Proof.
  revert rows h. induction ids as [| i ids IH]; intros rows [| r h] H;
    simplify_eq/=; [done |].
  case_decide; [| done]. apply IH in H. by rewrite length_insert in H.
Qed.

Lemma assign_rows_shape t ids h t' :
  assign_rows t ids h = Ok t' → dt_shape t' = dt_shape t.
Proof.
  unfold assign_rows. case_decide; [| done].
  destruct (scatter_rows _ _ _) as [rows |] eqn:E; [| done].
  intros [= <-]. unfold dt_shape. simpl. f_equal. by eapply scatter_rows_length.
Qed.

Lemma extends_by_refl (w : world) : extends_by [] w w.
Proof. unfold extends_by. rewrite app_nil_r. naive_solver. Qed.

Lemma extends_by_trans evs1 evs2 w1 w2 w3 :
  extends_by evs1 w1 w2 → extends_by evs2 w2 w3 →
  extends_by (evs1 ++ evs2) w1 w3.
Proof.
  intros (Hl1 & Ht1 & Hg1 & Hs1) (Hl2 & Ht2 & Hg2 & Hs2). split_and!.
  - by rewrite Hl2, Hl1, app_assoc.
  - congruence.
  - congruence.
  - intros name t Ht. destruct (Hs1 name t Ht) as (t1 & Ht1' & Hsh1).
    destruct (Hs2 name t1 Ht1') as (t2 & Ht2' & Hsh2).
    exists t2. split; [done | congruence].
Qed.

Lemma emit_extends e w w' u : emit e w = Ok (u, w') → extends_by [e] w w'.
Proof. intros [= _ <-]. unfold extends_by. simpl. naive_solver. Qed.

Lemma write_extends y ids h w w' u :
  write y ids h w = Ok (u, w') → extends_by [] w w'.
Proof.
  unfold write. intros H. inv_M.
  match goal with H : deref _ _ = _ |- _ => apply deref_Named_Ok in H as [Hy ->] end.
  match goal with H : assign_rows _ _ _ = _ |- _ => apply assign_rows_shape in H end.
  unfold extends_by. simpl. rewrite app_nil_r. split_and!; try done.
  intros name t Ht. destruct (decide (name = y)) as [-> | Hne].
  - rewrite lookup_insert_eq. eexists; split; [done |]. congruence.
  - rewrite lookup_insert_ne by done. eauto.
Qed.

Lemma DistTensor_Ok shape name w y w' :
  DistTensor shape name w = Ok (y, w') →
  y = name ∧ extends_by [EDistTensor shape name true] w w'
  ∧ ∃ t, w_store w' !! name = Some t ∧ dt_shape t = shape.
Proof.
  unfold DistTensor. intros H. inv_M. inv_emit. simpl in H.
  destruct (w_store _ !! name) as [t |] eqn:E.
  - case_decide; [| done]. inv_M.
    split_and!; [done | | eauto].
    unfold extends_by. simpl. naive_solver.
  - inv_M. simpl. split_and!; [done | |].
    + unfold extends_by. simpl. split_and!; try done.
      intros name' t Ht. rewrite lookup_insert_ne by congruence. eauto.
    + rewrite lookup_insert_eq. eexists; split; [done |].
      unfold zeros, dt_shape. simpl. rewrite length_replicate. by destruct shape.
Qed.

Section InferenceFacts.
Variable conv :
  nat → SAGEConv → block → list (list Q) * list (list Q) → pyres (list (list Q)).
Variable activation : list (list Q) → list (list Q).
Variable dropout : bool → list (list Q) → list (list Q).
Variable node_split_all : list nat.

Lemma inference_batch_extends n i layer g x y seeds w w' u :
  inference_batch conv activation dropout n i layer g x y seeds w = Ok (u, w') →
  extends_by [EBatch seeds] w w'.
Proof.
  unfold inference_batch. intros H. inv_M.
  match goal with H : emit _ _ = _ |- _ => apply emit_extends in H as He end.
  match goal with H : read _ _ _ = _ |- _ => apply read_Ok in H as -> end.
  apply write_extends in H.
  rewrite <- (app_nil_r [EBatch seeds]). by eapply extends_by_trans.
Qed.

Lemma for_each_batches_extends n i layer g x y batches w w' u :
  for_each batches (inference_batch conv activation dropout n i layer g x y) w
  = Ok (u, w') →
  extends_by (map EBatch batches) w w'.
Proof.
  revert w. induction batches as [| seeds batches IH]; intros w H; simpl in H.
  - inv_M. apply extends_by_refl.
  - inv_M. apply inference_batch_extends in H0. apply IH in H.
    by apply (extends_by_trans [EBatch seeds] _ w x1 w').
Qed.

Lemma DistNodeDataLoader_seq_Ok nodes batch_size w batches w' :
  DistNodeDataLoader_seq nodes batch_size w = Ok (batches, w') →
  (0 < batch_size)%Z
  ∧ batches = chunks (Z.to_nat batch_size) nodes
  ∧ extends_by [ELoader nodes batch_size false false] w w'.
Proof.
  unfold DistNodeDataLoader_seq. intros H. inv_M.
  match goal with H : emit _ _ = _ |- _ => apply emit_extends in H as He end.
  case_decide; inv_M; [done |]. split_and!; [lia | done | done].
Qed.

Lemma inference_layer_Ok m g nodes batch_size i layer x y w xy' w' :
  inference_layer conv activation dropout m g nodes batch_size i layer (x, y) w
  = Ok (xy', w') →
  extends_by (layer_events m g nodes batch_size i) w w'
  ∧ (0 < batch_size)%Z
  ∧ xy'.1 = Named xy'.2
  ∧ xy'.2 = (if decide (Z.of_nat i = Z.of_nat (length (layers m)) - 1)%Z
             then "h_last" else y)
  ∧ ((Z.of_nat i = Z.of_nat (length (layers m)) - 1)%Z →
     ∃ t, w_store w' !! xy'.2 = Some t ∧ dt_shape t = (num_nodes g, n_classes m)).
Proof.
  unfold inference_layer, layer_events. intros H. cbn [fst snd] in H.
  apply M_bind_Ok in H as (y' & w1 & Hy & H).
  apply M_bind_Ok in H as ([] & w2 & Hs & H). apply emit_extends in Hs.
  apply M_bind_Ok in H as (batches & w3 & Hl & H).
  apply DistNodeDataLoader_seq_Ok in Hl as (Hbs & -> & Hl).
  apply M_bind_Ok in H as ([] & w4 & Hf & H).
  apply for_each_batches_extends in Hf.
  apply M_bind_Ok in H as ([] & w5 & Hb & H). apply emit_extends in Hb.
  apply mret_Ok in H as [-> ->].
  assert (He : extends_by
                ([ESampler [(-1)%Z]] ++ [ELoader nodes batch_size false false]
                 ++ map EBatch (chunks (Z.to_nat batch_size) nodes) ++ [EBarrier])
                w1 w5).
  { repeat (eapply extends_by_trans; [eassumption |]). done. }
  destruct (decide (Z.of_nat i = Z.of_nat (length (layers m)) - 1)%Z) as [Hi | Hi].
  - apply DistTensor_Ok in Hy as (-> & Hd & t & Ht & Hsh).
    split_and!; [| done | done | done |].
    + by eapply extends_by_trans.
    + intros _. simpl. destruct He as (_ & _ & _ & Hst).
      destruct (Hst _ _ Ht) as (t' & ? & ?).
      exists t'. split; [done | congruence].
  - apply mret_Ok in Hy as [-> ->]. by split_and!.
Qed.
End InferenceFacts.



Lemma chunks_fuel_concat {A} (fuel bs : nat) (l : list A) :
  0 < bs → length l ≤ fuel → concat (chunks_fuel fuel bs l) = l.
Proof.
  intros Hbs. revert l. induction fuel as [| fuel IH]; intros l Hf.
  - by destruct l; [| simpl in Hf; lia].
  - destruct l as [| a l]; [done |]. cbn [chunks_fuel concat].
    rewrite IH by (rewrite length_drop; simpl in *; lia).
    apply take_drop.
Qed.

Lemma chunks_concat {A} (bs : nat) (l : list A) :
  0 < bs → concat (chunks bs l) = l.
Proof. intros H. by apply chunks_fuel_concat. Qed.

Section InferenceTrace.
Variable conv :
  nat → SAGEConv → block → list (list Q) * list (list Q) → pyres (list (list Q)).
Variable activation : list (list Q) → list (list Q).
Variable dropout : bool → list (list Q) → list (list Q).
Variable node_split_all : list nat.



Lemma inference_layers_extends m g nodes batch_size ls i xy w xy' w' :
  inference_layers conv activation dropout m g nodes batch_size i ls xy w
  = Ok (xy', w') →
  ∃ evs, extends_by evs w w'.
Proof.
  revert i xy w. induction ls as [| layer ls IH]; intros i [x y] w H.
  - apply mret_Ok in H as [-> ->]. eexists. apply extends_by_refl.
  - cbn [inference_layers] in H. apply M_bind_Ok in H as ([x1 y1] & w1 & Hl & H).
    apply inference_layer_Ok in Hl as (He & _).
    apply IH in H as [evs Hevs]. eexists. by eapply extends_by_trans.
Qed.

Lemma inference_extends m g x batch_size w y w' :
  inference conv activation dropout node_split_all m g x batch_size w
  = Ok (y, w') →
  ∃ evs, extends_by evs w w'.
Proof.
  unfold inference. intros H.
  apply M_bind_Ok in H as ([] & w1 & Hsplit & H). apply emit_extends in Hsplit.
  apply M_bind_Ok in H as (y0 & w2 & Hy & H).
  apply DistTensor_Ok in Hy as (-> & Hd & _).
  apply M_bind_Ok in H as (xy & w3 & Hl & H). apply mret_Ok in H as [-> ->].
  apply inference_layers_extends in Hl as [evs Hevs].
  eexists. eapply extends_by_trans; [eassumption |].
  by eapply extends_by_trans.
Qed.

(** [inference] runs every pass of its layer loop and returns [y]. *)
Lemma inference_upto_all m g x batch_size w :
  inference conv activation dropout node_split_all m g x batch_size w
  = (xy ← inference_upto conv activation dropout node_split_all
                         (length (layers m)) m g x batch_size;
     mret xy.2) w.
Proof.
  unfold inference, inference_upto. rewrite firstn_all.
  unfold mbind, M_bind. destruct (emit _ w) as [[[] w1] |]; [| done].
  by destruct (DistTensor _ _ w1) as [[y w2] |].
Qed.


(** C7: a call of [evaluate] that returns has put the model in evaluation
    mode and switched gradient tracking off, in that order, immediately
    before the call of [inference], which runs and ends with both flags
    off; immediately after it gradient tracking is back to what it was and
    the model is in training mode, where it stays.  The two values returned
    are [compute_acc] of the rows of the prediction at the validation ids
    and at the test ids against the labels at those ids. *)
Theorem evaluate_modes (long_nonfinite : float → Z) (m : DistSAGE) (g : graph)
    (inputs : tref) (labels : list float) (val_nid test_nid : list nat)
    (batch_size : Z) (w : world) (accs : float * float) (w' : world) :
  evaluate conv activation dropout node_split_all long_nonfinite m g inputs
           labels val_nid test_nid batch_size w
  = Ok (accs, w') →
  ∃ pred w1 pv lv pt lt,
    inference conv activation dropout node_split_all m g inputs batch_size
              (mkWorld (w_store w) false false
                       (w_log w ++ [EModelEval; ENoGradEnter]))
    = Ok (pred, w1)
    ∧ w_training w1 = false ∧ w_grad w1 = false
    ∧ w' = mkWorld (w_store w1) true (w_grad w)
                   (w_log w1 ++ [ENoGradExit; EModelTrain])
    ∧ read (Named pred) val_nid w' = Ok (pv, w')
    ∧ index_labels labels val_nid = Ok lv
    ∧ read (Named pred) test_nid w' = Ok (pt, w')
    ∧ index_labels labels test_nid = Ok lt
    ∧ compute_acc long_nonfinite pv lv = Ok accs.1
    ∧ compute_acc long_nonfinite pt lt = Ok accs.2.
Proof.
  unfold evaluate. intros H.
  apply M_bind_Ok in H as ([] & w1 & He1 & H). injection He1 as <-.
  apply M_bind_Ok in H as ([] & w2 & He2 & H). injection He2 as <-.
  apply M_bind_Ok in H as (w3 & w4 & He3 & H). injection He3 as <- <-.
  apply M_bind_Ok in H as ([] & w5 & He4 & H). injection He4 as <-.
  apply M_bind_Ok in H as ([] & w6 & He5 & H). injection He5 as <-.
  cbn [w_store w_training w_grad w_log] in H.
  rewrite <- app_assoc in H. cbn [app] in H.
  apply M_bind_Ok in H as (pred & wi & Hinf & H).
  apply M_bind_Ok in H as ([] & w7 & He6 & H). injection He6 as <-.
  apply M_bind_Ok in H as ([] & w8 & He7 & H). injection He7 as <-.
  apply M_bind_Ok in H as ([] & w9 & He8 & H). injection He8 as <-.
  apply M_bind_Ok in H as ([] & w10 & He9 & H). injection He9 as <-.
  cbn [w_store w_training w_grad w_log] in H.
  rewrite <- app_assoc in H. cbn [app] in H.
  apply M_bind_Ok in H as (pv & w11 & Hpv & H).
  pose proof (read_Ok _ _ _ _ _ Hpv) as ->.
  apply M_bind_Ok in H as (lv & w12 & Hlv & H). apply lift_Ok in Hlv as [Hlv ->].
  apply M_bind_Ok in H as (va & w13 & Hva & H). apply lift_Ok in Hva as [Hva ->].
  apply M_bind_Ok in H as (pt & w14 & Hpt & H).
  pose proof (read_Ok _ _ _ _ _ Hpt) as ->.
  apply M_bind_Ok in H as (lt & w15 & Hlt & H). apply lift_Ok in Hlt as [Hlt ->].
  apply M_bind_Ok in H as (ta & w16 & Hta & H). apply lift_Ok in Hta as [Hta ->].
  apply mret_Ok in H as [-> ->].
  destruct (inference_extends _ _ _ _ _ _ _ Hinf) as (evs & _ & Htr & Hgr & _).
  simpl in Htr, Hgr.
  exists pred, wi, pv, lv, pt, lt. by split_and!.
Qed.
End InferenceTrace.


(** ** Arithmetic of the epoch-time slice *)

Section EpochSlice.
Local Open Scope Z_scope.

Lemma round53_small (x : Z) : Z.abs x < 2 ^ 53 → round53 x = x.
Proof. intros H. unfold round53. by rewrite decide_True. Qed.

(** Rounding a positive integer to 53 bits moves it by less than one unit of
    the last kept bit and never below a multiple of that unit. *)
Lemma round53_bounds (x : Z) (e : Z) :
  2 ^ 53 ≤ x → e = Z.log2 x - 52 →
  ∃ q', round53 x = q' * 2 ^ e ∧ x / 2 ^ e ≤ q' ≤ x / 2 ^ e + 1.
Proof.
  intros Hx He. unfold round53.
  rewrite Z.abs_eq by lia. rewrite decide_False by lia.
  rewrite <- He. rewrite Z.sgn_pos by lia.
  case_decide; eexists; (split; [by rewrite Z.mul_1_l |]); lia.
Qed.

Lemma int_times_0_8_floor (n : Z) :
  0 ≤ n < 2 ^ 50 → int_times_0_8 n = Ok (4 * n / 5).
Proof.
  intros Hn. unfold int_times_0_8.
  assert (H50 : (2 ^ 50 < 2 ^ 53)%Z) by (apply Z.pow_lt_mono_r; lia).
  rewrite (round53_small n) by (rewrite Z.abs_eq; lia).
  rewrite decide_False.
  2:{ rewrite Z.abs_eq by lia.
      assert ((2 ^ 53 < 2 ^ 1024)%Z) by (apply Z.pow_lt_mono_r; lia). lia. }
  f_equal.
  set (X := n * m0_8). set (a := 4 * n / 5).
  assert (Ha : 5 * a ≤ 4 * n < 5 * a + 5).
  { subst a. pose proof (Z.mul_div_le (4 * n) 5 ltac:(lia)).
    pose proof (Z.mul_succ_div_gt (4 * n) 5 ltac:(lia)). lia. }
  assert (H52 : 2 ^ 52 = 4503599627370496) by reflexivity.
  assert (H49 : 2 ^ 49 = 562949953421312) by reflexivity.
  assert (HX : 5 * X = 4 * n * 2 ^ 52 + n) by (subst X; unfold m0_8; lia).
  assert (Hlo : a * 2 ^ 52 ≤ X) by lia.
  assert (Hhi : X + 2 ^ 49 < (a + 1) * 2 ^ 52).
  { assert (2 ^ 50 = 1125899906842624) by reflexivity. lia. }
  assert (Hr : a * 2 ^ 52 ≤ round53 X < (a + 1) * 2 ^ 52).
  { destruct (decide (X < 2 ^ 53)) as [Hs | Hb].
    - rewrite round53_small by (rewrite Z.abs_eq; lia). lia.
    - destruct (round53_bounds X (Z.log2 X - 52) ltac:(lia) eq_refl)
        as (q' & -> & Hq).
      set (e := Z.log2 X - 52) in *.
      assert (He : 1 ≤ e ≤ 49).
      { assert (53 ≤ Z.log2 X).
        { change 53 with (Z.log2 (2 ^ 53)). apply Z.log2_le_mono. lia. }
        assert (Z.log2 X < 102).
        { apply Z.log2_lt_pow2; [lia |].
          assert (2 ^ 102 = 2 ^ 50 * 2 ^ 52) by reflexivity.
          assert (2 ^ 50 = 1125899906842624) by reflexivity. lia. }
        lia. }
      assert (HP : 0 < 2 ^ e) by (apply Z.pow_pos_nonneg; lia).
      assert (HP49 : 2 ^ e ≤ 2 ^ 49) by (apply Z.pow_le_mono_r; lia).
      assert (Hsplit : 2 ^ 52 = 2 ^ (52 - e) * 2 ^ e).
      { rewrite <- Z.pow_add_r by lia. f_equal. lia. }
      assert (Hq1 : 2 ^ e * (X / 2 ^ e) ≤ X) by (apply Z.mul_div_le; lia).
      assert (Hq2 : a * 2 ^ (52 - e) ≤ X / 2 ^ e).
      { apply Z.div_le_lower_bound; [lia |]. rewrite Hsplit in Hlo. lia. }
      split.
      + rewrite Hsplit. nia.
      + nia. }
  rewrite Z.quot_div_nonneg by lia.
  symmetry. apply Z.div_unique with (round53 X - a * 2 ^ 52); lia.
Qed.
End EpochSlice.

(** ** The training loop and the driver *)

Section RunFacts.
Variable conv_after :
  nat → nat → SAGEConv → block → list (list Q) * list (list Q)
  → pyres (list (list Q)).
Variable activation : list (list Q) → list (list Q).
Variable dropout_fn : bool → list (list Q) → list (list Q).
Variable long_nonfinite : float → Z.
Variable py_int : string → pyres Z.
Variable epoch_seconds : nat → Q.
Variable epoch_batches : nat → nat.
Variable open_graph :
  option string → string → string → option string → option string → cluster.

Abbreviation run_epoch' :=
  (run_epoch conv_after activation dropout_fn long_nonfinite epoch_seconds
             epoch_batches).
Abbreviation run_epochs' :=
  (run_epochs conv_after activation dropout_fn long_nonfinite epoch_seconds
              epoch_batches).
Abbreviation run' :=
  (run conv_after activation dropout_fn long_nonfinite py_int epoch_seconds
       epoch_batches).
Abbreviation main' :=
  (main conv_after activation dropout_fn long_nonfinite py_int epoch_seconds
        epoch_batches open_graph).
Abbreviation script' :=
  (script conv_after activation dropout_fn long_nonfinite py_int epoch_seconds
          epoch_batches open_graph).

Lemma train_steps_pad_data (b : bool) (a : args.t) epoch steps out :
  train_steps (args.with_pad_data b a) epoch steps out
  = train_steps a epoch steps out.
Proof.
  revert out. induction steps as [| step steps IH]; intros out; [done |].
  cbn [train_steps].
  change (train_step (args.with_pad_data b a) epoch step out)
    with (train_step a epoch step out).
  destruct (train_step a epoch step out); [| done]. apply IH.
Qed.

Lemma run_epoch_pad_data (b : bool) (a : args.t) m c val_nid test_nid st :
  run_epoch' (args.with_pad_data b a) m c val_nid test_nid st
  = run_epoch' a m c val_nid test_nid st.
Proof. unfold run_epoch. by rewrite train_steps_pad_data. Qed.

Lemma run_epochs_pad_data (b : bool) (a : args.t) m c val_nid test_nid iters st :
  run_epochs' (args.with_pad_data b a) m c val_nid test_nid iters st
  = run_epochs' a m c val_nid test_nid iters st.
Proof.
  revert st. induction iters as [| i iters IH]; intros st; [done |].
  cbn [run_epochs]. rewrite run_epoch_pad_data.
  destruct (run_epoch' a m c val_nid test_nid st); [| done]. apply IH.
Qed.

Lemma run_pad_data (b : bool) (a : args.t) d data out :
  run' (args.with_pad_data b a) d data out = run' a d data out.
Proof.
  unfold run. destruct data as [[[[[train_nid val_nid] test_nid] inf] nc] c].
  change (args.fan_out (args.with_pad_data b a)) with (args.fan_out a).
  destruct (mapM py_int _) as [fanouts |]; [| done]. cbn [mbind pyres_bind].
  change (make_model inf (args.num_hidden (args.with_pad_data b a)) nc
            (args.num_layers (args.with_pad_data b a))
            (args.dropout (args.with_pad_data b a)))
    with (make_model inf (args.num_hidden a) nc (args.num_layers a)
            (args.dropout a)).
  destruct (make_model _ _ _ _ _) as [m |]; [| done]. cbn [mbind pyres_bind].
  by rewrite run_epochs_pad_data.
Qed.

Lemma main_pad_data (b : bool) (a : args.t) out :
  main' (args.with_pad_data b a) out = main' a out.
Proof.
  unfold main.
  change (resolve_n_classes (args.with_pad_data b a)) with (resolve_n_classes a).
  cbn [args.with_pad_data args.ip_config args.net_type args.backend
       args.graph_name args.part_config args.num_gpus].
  destruct (resolve_n_classes a _) as [nc |]; [| done]. cbn [mbind pyres_bind].
  by rewrite run_pad_data.
Qed.

(** C9, amended: the flag reaches one place only, the [Arguments:] line the
    script prints before [main]; [main], and with it node splitting,
    batching, training and everything printed afterwards, is the same with
    the flag present or absent, and the other attributes of the namespace
    in that line are the same too. *)
Theorem pad_data_only_printed (b : bool) (a : args.t) :
  script' (args.with_pad_data b a)
  = main' a [EPrintArguments (namespace_items (args.with_pad_data b a))]
  ∧ (∀ out, main' (args.with_pad_data b a) out = main' a out)
  ∧ filter (λ kv, kv.1 ≠ "pad_data") (namespace_items (args.with_pad_data b a))
    = filter (λ kv, kv.1 ≠ "pad_data") (namespace_items a).
Proof.
  split_and!.
  - unfold script. apply main_pad_data.
  - intros out. apply main_pad_data.
  - reflexivity.
Qed.

Lemma pyres_bind_Ok {A B} (r : pyres A) (f : A → pyres B) (b : B) :
  r ≫= f = Ok b ↔ ∃ a, r = Ok a ∧ f a = Ok b.
Proof. destruct r; naive_solver. Qed.

Lemma run_epoch_Ok (a : args.t) m c val_nid test_nid st st' :
  run_epoch' a m c val_nid test_nid st = Ok st' →
  rs_epoch st' = (rs_epoch st + 1)%Z
  ∧ rs_epoch_time st'
    = rs_epoch_time st ++ [epoch_seconds (Z.to_nat (rs_epoch st + 1))].
Proof.
  unfold run_epoch. intros H.
  apply pyres_bind_Ok in H as (out & _ & H).
  apply pyres_bind_Ok in H as (r & _ & H).
  case_decide; [| by injection H as <-].
  apply pyres_bind_Ok in H as ([accs w] & _ & H). by injection H as <-.
Qed.

Lemma run_epochs_Ok (a : args.t) m c val_nid test_nid iters st st' :
  (0 ≤ rs_epoch st)%Z →
  run_epochs' a m c val_nid test_nid iters st = Ok st' →
  rs_epoch st' = (rs_epoch st + Z.of_nat (length iters))%Z
  ∧ rs_epoch_time st'
    = rs_epoch_time st
      ++ map epoch_seconds (seq (S (Z.to_nat (rs_epoch st))) (length iters)).
Proof.
  revert st. induction iters as [| i iters IH]; intros st Hst H.
  - injection H as <-. simpl. rewrite app_nil_r. split; [lia | done].
  - cbn [run_epochs] in H. apply pyres_bind_Ok in H as (st1 & H1 & H).
    apply run_epoch_Ok in H1 as [He Ht].
    apply IH in H as [He' Ht']; [| lia]. split.
    + rewrite He', He. simpl length. lia.
    + rewrite Ht', Ht, He, <- app_assoc. cbn [length seq map app].
      do 3 f_equal; [f_equal; lia | f_equal; lia].
Qed.

Lemma run_epochs_snoc (a : args.t) m c val_nid test_nid iters i st :
  run_epochs' a m c val_nid test_nid (iters ++ [i]) st
  = run_epochs' a m c val_nid test_nid iters st
    ≫= run_epoch' a m c val_nid test_nid.
Proof.
  revert st. induction iters as [| j iters IH]; intros st.
  - simpl. by destruct (run_epoch' a m c val_nid test_nid st).
  - cbn [app run_epochs].
    destruct (run_epoch' a m c val_nid test_nid st) as [st1 |]; [| done].
    apply IH.
Qed.

Lemma py_range_snoc (n : Z) :
  (1 ≤ n)%Z → py_range 0 n = py_range 0 (n - 1) ++ [(n - 1)%Z].
Proof.
  intros Hn. unfold py_range.
  replace (Z.to_nat (n - 0)) with (S (Z.to_nat (n - 1 - 0))) by lia.
  rewrite seq_S, map_app. simpl. do 2 f_equal. lia.
Qed.

Lemma run_epoch_final (a : args.t) m c val_nid test_nid st st' :
  (rs_epoch st + 1)%Z = args.num_epochs a →
  run_epoch' a m c val_nid test_nid st = Ok st' →
  ∃ accs w0 w1,
    evaluate (conv_after (Z.to_nat (args.num_epochs a))) activation dropout_fn
             (c_node_split_all c) long_nonfinite m (c_graph c)
             (Given (features (c_graph c))) (labels (c_graph c))
             val_nid test_nid (args.batch_size_eval a) w0
    = Ok (accs, w1)
    ∧ rs_test_acc st' = accs.2
    ∧ last (rs_out st') = Some (EPrintEval accs.1 accs.2).
Proof.
  unfold run_epoch. intros Hlast H.
  apply pyres_bind_Ok in H as (out & _ & H).
  apply pyres_bind_Ok in H as (r & _ & H).
  rewrite decide_True in H by (right; done).
  apply pyres_bind_Ok in H as ([accs w] & He & H). injection H as <-.
  rewrite Hlast in He. eexists accs, _, w. split; [exact He |]. simpl.
  split; [done |]. by rewrite !app_assoc, last_snoc.
Qed.

Lemma slice_last_epochs (n : Z) (l : list Q) :
  (1 ≤ n)%Z → length l = Z.to_nat n →
  py_slice_from (- (4 * n / 5)) l
  = drop (Z.to_nat n - Nat.max 1 (Z.to_nat (4 * n / 5))) l.
Proof.
  intros Hn Hl. unfold py_slice_from. rewrite Hl.
  assert (Hk : (0 ≤ 4 * n / 5 ≤ n)%Z).
  { split; [apply Z.div_pos; lia |].
    apply Z.div_le_upper_bound; lia. }
  destruct (decide (4 * n / 5 = 0)%Z) as [H0 | H0].
  - rewrite H0. simpl. f_equal.
    assert (n = 1)%Z; [| lia].
    destruct (decide (n = 1)%Z); [done |].
    assert (1 ≤ 4 * n / 5)%Z; [| lia].
    apply Z.div_le_lower_bound; lia.
  - assert (Hneg : (- (4 * n / 5) <? 0)%Z = true) by (apply Z.ltb_lt; lia).
    rewrite Hneg. f_equal. lia.
Qed.

(** C2, amended: for a number of epochs from 1 below 2^50, a call of [run]
    that returns gives first the mean of the durations of the last
    [max(1, floor(0.8 * num_epochs))] epochs (the last 8 of 10, the last one
    of 2), and second the test accuracy of the evaluation it ran in the last
    epoch, whose log line is the last thing it printed. *)
Theorem run_returns (a : args.t) (d : device)
    (train_nid val_nid test_nid : list nat) (in_feats : nat) (n_classes : Z)
    (c : cluster) (out : list run_event)
    (r : float * float * list run_event) :
  (1 ≤ args.num_epochs a < 2 ^ 50)%Z →
  run' a d (train_nid, val_nid, test_nid, in_feats, n_classes, c) out = Ok r →
  let n := Z.to_nat (args.num_epochs a) in
  let k := Nat.max 1 (Z.to_nat (4 * args.num_epochs a / 5)) in
  r.1.1 = np_mean (drop (n - k) (map epoch_seconds (seq 1 n)))
  ∧ ∃ m accs w0 w1,
      evaluate (conv_after n) activation dropout_fn (c_node_split_all c)
               long_nonfinite m (c_graph c) (Given (features (c_graph c)))
               (labels (c_graph c)) val_nid test_nid (args.batch_size_eval a)
               w0
      = Ok (accs, w1)
      ∧ r.1.2 = accs.2
      ∧ last r.2 = Some (EPrintEval accs.1 accs.2).
Proof.
  intros Hn H n k. unfold run in H.
  apply pyres_bind_Ok in H as (fanouts & _ & H).
  apply pyres_bind_Ok in H as (m & _ & H).
  apply pyres_bind_Ok in H as (st & Hst & H).
  rewrite int_times_0_8_floor in H by lia. cbn [mbind pyres_bind] in H.
  injection H as <-. cbn [fst snd].
  rewrite py_range_snoc, run_epochs_snoc in Hst by lia.
  apply pyres_bind_Ok in Hst as (st1 & Hst1 & Hlast).
  pose proof Hst1 as Hst1'. apply run_epochs_Ok in Hst1' as [He1 Ht1]; [| simpl; lia].
  pose proof Hlast as Hlast'. apply run_epoch_Ok in Hlast' as [He Ht].
  rewrite py_range_length in He1, Ht1. simpl in He1, Ht1.
  assert (Htimes : rs_epoch_time st = map epoch_seconds (seq 1 n)).
  { rewrite Ht, Ht1, He1. subst n.
    set (j := Z.to_nat (args.num_epochs a - 1 - 0)).
    replace (Z.to_nat (args.num_epochs a)) with (S j) by lia.
    rewrite seq_S, map_app. simpl. do 3 f_equal. lia. }
  split.
  - rewrite slice_last_epochs, Htimes; [done | lia |].
    rewrite Htimes, length_map, length_seq. done.
  - apply run_epoch_final in Hlast as (accs & w0 & w1 & Hev & Hacc & Hout);
      [| rewrite He1; lia].
    by exists m, accs, w0, w1.
Qed.
End RunFacts.

(** C9, as stated, fails: on the same cluster the script's output with
    [--pad-data] differs from its output without. *)
Lemma pad_data_counterexample :
  toy_script (args.with_pad_data true toy_args)
  ≠ toy_script (args.with_pad_data false toy_args).
Proof. vm_compute. discriminate. Qed.

(** ** Class count *)

Lemma float_eqb_canon (x y : float) :
  isnan x = false → isnan y = false →
  float_eqb x y = true ↔ canon x = canon y.
Proof.
  destruct x as [| | p], y as [| | q]; simpl; try done.
  intros _ _. rewrite Qeq_bool_iff. split.
  - intros H. f_equal. by apply Qred_complete.
  - intros [= H]. by apply Qred_eq_iff.
Qed.

Lemma isnan_canon (x : float) : isnan (canon x) = isnan x.
Proof. by destruct x. Qed.

Lemma existsb_float_eqb (x : float) (u : list float) :
  isnan x = false → Forall (λ y, isnan y = false) u →
  existsb (float_eqb x) u = true ↔ canon x ∈ map canon u.
Proof.
  intros Hx Hu. rewrite existsb_exists. split.
  - intros (y & Hy & Heq). apply list_elem_of_In in Hy.
    apply list_elem_of_fmap. exists y. split; [| done].
    apply float_eqb_canon; [done | | done].
    by eapply Forall_forall in Hu.
  - intros H. apply list_elem_of_fmap in H as (y & Heq & Hy).
    exists y. split; [by apply list_elem_of_In |].
    apply float_eqb_canon; [done | | done].
    by eapply Forall_forall in Hu.
Qed.

Lemma th_unique_spec (l : list float) :
  Forall (λ y, isnan y = false) l →
  Forall (λ y, isnan y = false) (th_unique l)
  ∧ NoDup (map canon (th_unique l))
  ∧ ∀ v, v ∈ map canon (th_unique l) ↔ v ∈ map canon l.
Proof.
  induction 1 as [| x l Hx Hl (IH1 & IH2 & IH3)]; [by split_and!; [| constructor |] |].
  cbn [th_unique]. destruct (existsb (float_eqb x) (th_unique l)) eqn:E.
  - apply existsb_float_eqb in E; [| done | done].
    split_and!; [done | done |].
    intros v. rewrite IH3. cbn [map]. rewrite elem_of_cons.
    split; [tauto |]. intros [-> | H]; [by apply IH3 | done].
  - split_and!.
    + by constructor.
    + cbn [map]. constructor; [| done].
      intros Hin. apply existsb_float_eqb in Hin; [| done | done]. congruence.
    + intros v. cbn [map]. rewrite !elem_of_cons, IH3. done.
Qed.

Lemma distinct_values_length (labels vals : list float) :
  lists_distinct_values labels vals →
  length (th_unique (filter (λ x, isnan x = false) labels)) = length vals.
Proof.
  intros (Hin & Hall & Hdistinct).
  set (l := filter (λ x, isnan x = false) labels).
  assert (Hl : Forall (λ y, isnan y = false) l).
  { apply Forall_forall. intros y Hy. by apply list_elem_of_filter in Hy as [? _]. }
  destruct (th_unique_spec l Hl) as (Hu1 & Hu2 & Hu3).
  rewrite <- (length_map canon (th_unique l)), <- (length_map canon vals).
  apply Permutation_length, NoDup_Permutation; [done | |].
  - apply NoDup_fmap_2_strong; [| ].
    + intros v v' Hv Hv' Heq.
      apply list_elem_of_lookup in Hv as [i Hi], Hv' as [j Hj].
      assert (i = j); [| congruence].
      apply (Hdistinct i j v v' Hi Hj).
      apply float_eqb_canon; [| | done].
      * apply Hin. by eapply list_elem_of_lookup_2.
      * apply Hin. by eapply list_elem_of_lookup_2.
    + apply NoDup_alt. intros i j v Hi Hj.
      apply (Hdistinct i j v v Hi Hj).
      apply float_eqb_canon; [| | done]; apply Hin; by eapply list_elem_of_lookup_2.
  - intros v. rewrite Hu3. split.
    + intros H. apply list_elem_of_fmap in H as (x & -> & Hx).
      apply list_elem_of_filter in Hx as [Hnan Hx].
      destruct (Hall x Hx Hnan) as (v & Hv & Heq).
      apply list_elem_of_fmap. exists v. split; [| done].
      apply float_eqb_canon; [done | by apply Hin | done].
    + intros H. apply list_elem_of_fmap in H as (x & -> & Hx).
      destruct (Hin x Hx) as (Hnan & y & Hy & Heq).
      apply list_elem_of_fmap. exists y. split.
      * symmetry. apply float_eqb_canon; [| done | done].
        destruct y; try done.
      * apply list_elem_of_filter. split; [| done]. by destruct y.
Qed.

Lemma index_labels_all (labels : list float) (n : nat) :
  n ≤ length labels → index_labels labels (seq 0 n) = Ok (take n labels).
Proof.
  unfold index_labels. intros Hn.
  assert (H : ∀ k m, k + m ≤ length labels →
            mapM (λ i, match labels !! i with
                       | Some l => Ok l
                       | None => Raise IndexError
                       end) (seq k m)
            = Ok (take m (drop k labels))).
  { intros k m. revert k. induction m as [| m IH]; intros k Hk; [done |].
    cbn [seq mapM].
    destruct (lookup_lt_is_Some_2 labels k ltac:(lia)) as [x Hx].
    rewrite Hx. cbn [mbind pyres_bind]. rewrite IH by lia.
    cbn [mbind pyres_bind mret pyres_ret]. f_equal.
    rewrite (drop_S _ _ _ Hx). done. }
  by rewrite (H 0 n Hn).
Qed.

(** C8: a nonzero [--n_classes] is used as it is; with 0 the class count is
    the number of distinct values among the non-NaN labels of all the
    nodes. *)
Theorem resolve_n_classes_spec (a : args.t) (g : graph) (vals : list float) :
  num_nodes g ≤ length (labels g) →
  lists_distinct_values (take (num_nodes g) (labels g)) vals →
  (args.n_classes a ≠ 0%Z → resolve_n_classes a g = Ok (args.n_classes a))
  ∧ (args.n_classes a = 0%Z →
     resolve_n_classes a g = Ok (Z.of_nat (length vals))).
Proof.
  intros Hn Hvals. unfold resolve_n_classes. split; intros Ha.
  - by rewrite decide_False.
  - rewrite decide_True by done. rewrite index_labels_all by done.
    cbn [mbind pyres_bind]. by rewrite (distinct_values_length _ vals).
Qed.

Lemma resolve_n_classes_spec_witness :
  resolve_n_classes toy_args
    (mkGraph 4 (λ _, []) (mkDT 1 [[0%Q]; [0%Q]; [0%Q]; [0%Q]])
             [Fin 1; NaN; Fin (2 # 2); Fin 0])
  = Ok 2%Z.
Proof.
  destruct (resolve_n_classes_spec toy_args
              (mkGraph 4 (λ _, []) (mkDT 1 [[0%Q]; [0%Q]; [0%Q]; [0%Q]])
                       [Fin 1; NaN; Fin (2 # 2); Fin 0])
              [Fin 1; Fin 0]) as [_ H].
  - simpl. lia.
  - split_and!.
    + intros v Hv. apply list_elem_of_In in Hv. simpl in Hv.
      destruct Hv as [<- | [<- | []]]; (split; [reflexivity |]).
      * exists (Fin 1). split; [apply list_elem_of_In; simpl; tauto | reflexivity].
      * exists (Fin 0). split; [apply list_elem_of_In; simpl; tauto | reflexivity].
    + intros l Hl Hnan. apply list_elem_of_In in Hl. simpl in Hl.
      destruct Hl as [<- | [<- | [<- | [<- | []]]]]; try discriminate.
      * exists (Fin 1). split; [apply list_elem_of_In; simpl; tauto | reflexivity].
      * exists (Fin 1). split; [apply list_elem_of_In; simpl; tauto | reflexivity].
      * exists (Fin 0). split; [apply list_elem_of_In; simpl; tauto | reflexivity].
    + intros [| [| i]] [| [| j]] v v' Hi Hj; simpl in Hi, Hj; try done;
        injection Hi as <-; injection Hj as <-; discriminate.
  - apply H. reflexivity.
Defined.

(** ** Worked runs *)

(** C2, as stated, fails: with two epochs of 1 and 2 seconds [run] returns
    2, the duration of the last epoch alone, where the mean over the last
    [ceil(0.8 * 2) = 2] epochs is 3/2. *)
Lemma run_mean_counterexample :
  ∃ r, toy_run toy_args = Ok r
       ∧ r.1.1 = Fin 2
       ∧ claimed_epoch_mean [1; 2]%Q (args.num_epochs toy_args) = Fin (3 # 2)
       ∧ r.1.1 ≠ claimed_epoch_mean [1; 2]%Q (args.num_epochs toy_args).
Proof.
  eexists. split; [vm_compute; reflexivity |].
  split; [reflexivity |]. split; [reflexivity |]. vm_compute. discriminate.
Qed.

Lemma run_returns_witness :
  ∃ r, toy_run toy_args = Ok r ∧ r.1.1 = Fin 2 ∧ r.1.2 = Fin 1.
Proof.
  eassert (H : toy_run toy_args = Ok _) by (vm_compute; reflexivity).
  destruct (run_returns (λ _, unit_sage) relu eval_dropout toy_long digits_int
              (λ e, inject_Z (Z.of_nat e)) (λ _, 1) toy_args Cpu
              [0] [1] [1] 1 1%Z toy_cluster [] _
              ltac:(vm_compute; split; [discriminate | reflexivity]) H)
    as [Hmean _].
  refine (ex_intro _ _ (conj H (conj _ _))).
  - rewrite Hmean. reflexivity.
  - reflexivity.
Defined.


(** With two layers the input of the last layer is [h] and its output
    [h_last]: no tensor is read and written in one pass, and the two batch
    sizes agree. *)
Lemma inference_two_layers_agree :
  inference_rows (DistSAGE_init 1 1 1 2) two_cycle [0; 1] 1
  = inference_rows (DistSAGE_init 1 1 1 2) two_cycle [0; 1] 2.
Proof. vm_compute. reflexivity. Qed.

Lemma evaluate_modes_witness :
  ∃ accs w',
    evaluate unit_sage relu eval_dropout [0; 1] toy_long (DistSAGE_init 1 1 1 2)
             two_cycle (Given (features two_cycle)) (labels two_cycle) [0] [1]
             100000 empty_world
    = Ok (accs, w')
    ∧ w_training w' = true ∧ w_grad w' = true.
Proof.
  eassert (H : evaluate unit_sage relu eval_dropout [0; 1] toy_long
                 (DistSAGE_init 1 1 1 2) two_cycle (Given (features two_cycle))
                 (labels two_cycle) [0] [1] 100000 empty_world = Ok (_, _))
    by (vm_compute; reflexivity).
  destruct (evaluate_modes unit_sage relu eval_dropout [0; 1] toy_long
              _ _ _ _ _ _ _ _ _ _ H)
    as (pred & w1 & pv & lv & pt & lt & _ & _ & _ & Hw & _).
  refine (ex_intro _ _ (ex_intro _ _ (conj H _))).
  rewrite Hw. split; reflexivity.
Defined.
